(** * Skizze persistence layer: page cache, random-access file, registry, proxy

    A shallow embedding of the Go sources

    - package [smartfile]: the dirty-aware LRU [Cache] and the [File] built on it,
    - package [storage]:   the [ManagerStruct] methods (the object registry),
    - package [sketches]:  the [SketchProxy] (mutation, threshold save),

    together with the properties of the written specification that concern them.

    Go values are modelled as follows.  [int64] offsets and [int] lengths are
    [Z]; [uint] counters (64 bits wide) are [Z] kept below [2^64] by an
    explicit wrap; a
    [[]byte] is a [list byte] (a value: the sharing of a slice between caller
    and cache is not modelled, no property below depends on it); an [error] is
    [option error] with [None] for [nil]; a pointer that may be [nil] is an
    [option].  Calls into the operating system go through the class [Env] and
    are recorded, in order, in a trace.  A run-time panic (nil dereference,
    division by zero) is the outcome [Panic]. *)

From Stdlib Require Import String ZArith Bool Lia List Permutation.
From Stdlib Require Import Init.Byte.
From Stdlib Require Strings.Byte.
Import ListNotations.
Local Open Scope string_scope.
Local Open Scope list_scope.
Local Open Scope Z_scope.

(** ** Go's machine integers *)

Module Go.

(** Go's [error]: the message. *)
Definition error := string.

(** [uint] arithmetic wraps modulo [2^64]. *)
Definition uint_wrap (z : Z) : Z := z mod 2 ^ 64.

(** The conversion [int(u)] of a [uint]: two's complement reinterpretation. *)
Definition int_of_uint (u : Z) : Z := if u <? 2 ^ 63 then u else u - 2 ^ 64.

End Go.

(** ** The environment: the [os] package and the collaborators outside the sources *)

(** The operating system as the code uses it.  Each function takes the state of
    the world and returns its result with the new state.  [os_ReadAt h buf off]
    returns the buffer as the call leaves it.  The Go run time is part of the
    world too: it picks the order in which a [range] visits the elements of a
    map, anew at every iteration. *)
Class Env := {
  World : Type;
  Handle : Type;
  os_OpenFile : string -> World -> (Handle + Go.error) * World;
  os_ReadAt : Handle -> list byte -> Z -> World -> (list byte * option Go.error) * World;
  os_WriteAt : Handle -> list byte -> Z -> World -> option Go.error * World;
  os_Close : Handle -> World -> option Go.error * World;
  os_Stat_Size : Handle -> World -> option Z * World;
  os_Remove : string -> World -> option Go.error * World;
  filepath_Join : string -> string -> string;
  (** the package variable [dataPath] of [storage], set from the configuration *)
  dataPath : string;
  (** [ManagerStruct.SaveInfo], a method declared outside the sources: it
      stores the metadata record of an object *)
  manager_SaveInfo : string -> list byte -> World -> option Go.error * World;
  (** [for k, v := range m] on a map holding the elements [l]: the elements
      in the order of the iteration, which the language leaves open *)
  go_maprange : forall A : Type, list A -> World -> list A * World;
  go_maprange_perm :
    forall (A : Type) (l : list A) (w : World), Permutation (fst (go_maprange A l w)) l;
}.

Module Sys.
Section WithEnv.
Context {E : Env}.

(** One call out of the modelled code. *)
Inductive Event :=
| EvOpenFile (path : string)
| EvReadAt (h : Handle) (n : nat) (off : Z)
| EvWriteAt (h : Handle) (b : list byte) (off : Z)
| EvClose (h : Handle)
| EvStat (h : Handle)
| EvRemove (path : string)
| EvSaveInfo (id : string) (info : list byte).

(** The state every operation threads: the world and the calls made so far,
    oldest first. *)
Record St := mkSt { world : World; trace : list Event }.

(** The outcome of running Go code: a normal return or a panic. *)
Inductive Res (A : Type) :=
| Ok (a : A) (s : St)
| Panic (msg : string) (s : St).

Arguments Ok {A} a s.
Arguments Panic {A} msg s.

Definition M (A : Type) : Type := St -> Res A.

Definition ret {A} (a : A) : M A := fun s => Ok a s.

Definition bind {A B} (m : M A) (k : A -> M B) : M B :=
  fun s => match m s with
           | Ok a s' => k a s'
           | Panic msg s' => Panic msg s'
           end.

Definition panic {A} (msg : string) : M A := fun s => Panic msg s.

(** A system call: run it on the world and append it to the trace. *)
Definition syscall {A} (ev : Event) (f : World -> A * World) : M A :=
  fun s => let (a, w) := f (world s) in Ok a (mkSt w (trace s ++ [ev])).

Definition OpenFile (path : string) : M (Handle + Go.error) :=
  syscall (EvOpenFile path) (os_OpenFile path).
Definition ReadAt (h : Handle) (buf : list byte) (off : Z) : M (list byte * option Go.error) :=
  syscall (EvReadAt h (length buf) off) (os_ReadAt h buf off).
Definition WriteAt (h : Handle) (b : list byte) (off : Z) : M (option Go.error) :=
  syscall (EvWriteAt h b off) (os_WriteAt h b off).
Definition Close (h : Handle) : M (option Go.error) :=
  syscall (EvClose h) (os_Close h).
Definition Stat_Size (h : Handle) : M (option Z) :=
  syscall (EvStat h) (os_Stat_Size h).
Definition Remove (path : string) : M (option Go.error) :=
  syscall (EvRemove path) (os_Remove path).
Definition SaveInfo (id : string) (info : list byte) : M (option Go.error) :=
  syscall (EvSaveInfo id info) (manager_SaveInfo id info).

(** A [range] over a map: no call out of the code, so the trace is as it was. *)
Definition MapRange {A} (l : list A) : M (list A) :=
  fun s => let (l', w) := go_maprange A l (world s) in Ok l' (mkSt w (trace s)).

(** Is the event a positional write? *)
Definition isWriteAt (ev : Event) : bool :=
  match ev with EvWriteAt _ _ _ => true | _ => false end.

(** Is the event a positional read? *)
Definition isReadAt (ev : Event) : bool :=
  match ev with EvReadAt _ _ _ => true | _ => false end.

End WithEnv.

Arguments Ok {E A} a s.
Arguments Panic {E A} msg s.

End Sys.

Import Sys.

Declare Scope go_scope.
Delimit Scope go_scope with go.
Notation "x <- m ;; k" := (bind m (fun x => k))
  (at level 61, m at next level, right associativity) : go_scope.
Notation "' p <- m ;; k" := (bind m (fun p => k))
  (at level 61, p pattern, m at next level, right associativity) : go_scope.
Notation "m ;;; k" := (bind m (fun _ => k))
  (at level 61, right associativity) : go_scope.

(** ** Package smartfile, the cache (a modified groupcache LRU) *)

Module smartfile.

(** [type item struct { bytes []byte; dirty bool }] *)
Record item := mkItem { bytes : list byte; dirty : bool }.

(** [type entry struct { key int64; value *item }] *)
Record entry := mkEntry { key : Z; value : item }.

(** [type Cache struct].  [ll] is the recency list, front (most recently used)
    first.  The map [cache] of the source indexes the elements of [ll] by key
    and is kept in step with it by every method, so it is read off [ll] by
    [lookup].  [OnEvicted] is not a field here: the methods that evict return
    the entries they hand to the callback, and the owner runs it (see
    [evicted] in the file part). *)
Record Cache := mkCache { MaxEntries : Z; ll : list entry }.

(** [c.cache[k]]: the element of the list with key [k]. *)
Fixpoint lookup (k : Z) (l : list entry) : option entry :=
  match l with
  | [] => None
  | e :: r => if key e =? k then Some e else lookup k r
  end.

(** [c.ll.Remove(ele)] for the element with key [k]. *)
Fixpoint unlink (k : Z) (l : list entry) : list entry :=
  match l with
  | [] => []
  | e :: r => if key e =? k then r else e :: unlink k r
  end.

(** [NewLRU] *)
Definition NewLRU (maxEntries : Z) : Cache := mkCache maxEntries [].

(** [len] *)
Definition len (c : Cache) : Z := Z.of_nat (length (ll c)).

(** [removeElement]: unlink the element, delete its key, and hand the entry to
    [OnEvicted] (second component). *)
Definition removeElement (c : Cache) (e : entry) : Cache * option entry :=
  (mkCache (MaxEntries c) (unlink (key e) (ll c)), Some e).

(** The loop of [removeOldest] once [ele] has left the back of the list: each
    turn steps to [ele.Prev()] and stops at the first element that is not
    dirty.  [newer] lists the elements from the one before the back to the
    front. *)
Fixpoint scan (newer : list entry) : option entry :=
  match newer with
  | [] => None
  | e :: r => if negb (dirty (value e)) then Some e else scan r
  end.

(** [removeOldest] *)
Definition removeOldest (c : Cache) : Cache * option entry :=
  match rev (ll c) with
  | [] => (c, None)
  | oldest :: newer =>
      match scan newer with
      | Some e => removeElement c e
      | None => removeElement c oldest
      end
  end.

(** [Add] *)
Definition Add (c : Cache) (k : Z) (v : item) : Cache * option entry :=
  match lookup k (ll c) with
  | Some _ => (mkCache (MaxEntries c) (mkEntry k v :: unlink k (ll c)), None)
  | None =>
      let c1 := mkCache (MaxEntries c) (mkEntry k v :: ll c) in
      if negb (MaxEntries c1 =? 0) && (MaxEntries c1 <? len c1)
      then removeOldest c1
      else (c1, None)
  end.

(** [get]: the value, and the element moved to the front. *)
Definition get (c : Cache) (k : Z) : Cache * option item :=
  match lookup k (ll c) with
  | Some e => (mkCache (MaxEntries c) (e :: unlink k (ll c)), Some (value e))
  | None => (c, None)
  end.

(** [remove] *)
Definition remove (c : Cache) (k : Z) : Cache * option entry :=
  match lookup k (ll c) with
  | Some e => removeElement c e
  | None => (c, None)
  end.

(** [keys]: oldest first. *)
Definition keys (c : Cache) : list Z := map key (rev (ll c)).

(** [peek] *)
Definition peek (c : Cache) (k : Z) : option item :=
  option_map value (lookup k (ll c)).

(** [item.dirty = false] through the pointer [peek] returned: the entry with
    key [k] is changed in place. *)
Fixpoint setClean (k : Z) (l : list entry) : list entry :=
  match l with
  | [] => []
  | e :: r =>
      if key e =? k then mkEntry (key e) (mkItem (bytes (value e)) false) :: r
      else e :: setClean k r
  end.

(** ** Package smartfile, the file *)

Section WithEnv.
Context {E : Env}.
Local Open Scope go_scope.

(** [type File struct { id string; file *os.File; queue *Cache; size uint; ops uint }] *)
Record File := mkFile {
  id : string;
  file : Handle;
  queue : Cache;
  size : Z;
  ops : Z;
}.

Definition setQueue (fq : File) (q : Cache) : File :=
  mkFile (id fq) (file fq) q (size fq) (ops fq).

Definition setOps (fq : File) (n : Z) : File :=
  mkFile (id fq) (file fq) (queue fq) (size fq) n.

(** The closure [NewFile] installs as [fq.queue.OnEvicted]:
    [fq.file.WriteAt(v.bytes, k)], its results dropped. *)
Definition OnEvicted (h : Handle) (e : entry) : M unit :=
  WriteAt h (bytes (value e)) (key e) ;;; ret tt.

(** Run the callback on what a cache method evicted. *)
Definition evicted (h : Handle) (ev : option entry) : M unit :=
  match ev with
  | Some e => OnEvicted h e
  | None => ret tt
  end.

Fixpoint evictedAll (h : Handle) (es : list entry) : M unit :=
  match es with
  | [] => ret tt
  | e :: r => OnEvicted h e ;;; evictedAll h r
  end.

(** [clear]: every entry goes to [OnEvicted], in the order in which the run
    time ranges over the map [c.cache] (whose elements are those of [ll]);
    then the cache is empty. *)
Definition clear (c : Cache) : M (Cache * list entry) :=
  es <- MapRange (ll c) ;;
  ret (mkCache (MaxEntries c) [], es).

(** [fq.queue.Add(k, v)] with the callback of this file. *)
Definition queueAdd (fq : File) (k : Z) (v : item) : M File :=
  let (q, ev) := Add (queue fq) k v in
  evicted (file fq) ev ;;; ret (setQueue fq q).

(** [NewFile]: [(nil, err)] when the file cannot be opened. *)
Definition NewFile (id : string) (size : Z) : M (option File * option Go.error) :=
  r <- OpenFile id ;;
  match r with
  | inr err => ret (None, Some err)
  | inl h => ret (Some (mkFile id h (NewLRU (Go.int_of_uint size)) size 0), None)
  end.

(** [Read]: returns the file, the caller's buffer as the call leaves it, and
    the error. *)
Definition Read (fq : File) (data : list byte) (offset : Z)
  : M (File * list byte * option Go.error) :=
  match get (queue fq) offset with
  | (q, Some v) =>
      let cdata := bytes v in
      let data' :=
        if (length data <=? length cdata)%nat
        then firstn (length data) (bytes v)
        else data in
      ret (setQueue fq q, data', None)
  | (_, None) =>
      ' (data', err) <- ReadAt (file fq) data offset ;;
      match err with
      | None => ret (fq, data', None)
      | Some _ =>
          fq' <- queueAdd fq offset (mkItem data' false) ;;
          ret (fq', data', None)
      end
  end.

(** The loop of [Flush] over the keys still to visit. *)
Fixpoint flushKeys (ks : list Z) (fq : File) : M (File * option Go.error) :=
  match ks with
  | [] => ret (fq, None)
  | k :: ks' =>
      match peek (queue fq) k with
      | None => panic "invalid memory address or nil pointer dereference"
      | Some it =>
          let fq' := setQueue fq (mkCache (MaxEntries (queue fq)) (setClean k (ll (queue fq)))) in
          if dirty it then
            err <- WriteAt (file fq) (bytes it) k ;;
            match err with
            | Some e => ret (fq, Some e)
            | None => flushKeys ks' fq'
            end
          else flushKeys ks' fq'
      end
  end.

(** [Flush] *)
Definition Flush (fq : File) : M (File * option Go.error) :=
  flushKeys (keys (queue fq)) fq.

(** [Write] *)
Definition Write (fq : File) (data : list byte) (offset : Z) : M File :=
  let fq1 := setOps fq (Go.uint_wrap (ops fq + 1)) in
  fq2 <- queueAdd fq1 offset (mkItem data true) ;;
  if size fq2 =? 0 then panic "integer divide by zero"
  else if ops fq2 mod size fq2 =? 0
       then ' (fq3, _) <- Flush fq2 ;; ret fq3
       else ret fq2.

(** [Clear] *)
Definition Clear (fq : File) : M File :=
  ' (fq1, _) <- Flush fq ;;
  ' (q, es) <- clear (queue fq1) ;;
  evictedAll (file fq1) es ;;;
  ret (setOps (setQueue fq1 q) 0).

(** [Purge] *)
Definition Purge (fq : File) : M File :=
  Close (file fq) ;;;
  ' (q, es) <- clear (queue fq) ;;
  evictedAll (file fq) es ;;;
  ret (setOps (setQueue fq q) 0).

(** [GetSize]: [Stat]'s error is dropped, so a failed [Stat] leaves a nil
    [FileInfo] whose [Size] panics. *)
Definition GetSize (fq : File) : M Z :=
  r <- Stat_Size (file fq) ;;
  match r with
  | Some n => ret n
  | None => panic "invalid memory address or nil pointer dereference"
  end.

End WithEnv.

End smartfile.

(** ** Package storage, the registry *)

Module storage.
Section WithEnv.
Context {E : Env}.
Local Open Scope go_scope.

(** Modelled from the spec: the type of the field [cache] of [ManagerStruct]
    and its methods [Get] and [Add] are declared outside the sources.  The
    registry is an association from identifier to file under an LRU bound
    ([bound] entries, 0 for none), most recently used first; an entry that
    falls out is neither flushed nor closed. *)
Record Registry := mkRegistry { bound : Z; files : list (string * smartfile.File) }.

Fixpoint find (ID : string) (l : list (string * smartfile.File)) : option smartfile.File :=
  match l with
  | [] => None
  | (k, f) :: r => if String.eqb k ID then Some f else find ID r
  end.

Fixpoint drop (ID : string) (l : list (string * smartfile.File)) : list (string * smartfile.File) :=
  match l with
  | [] => []
  | (k, f) :: r => if String.eqb k ID then r else (k, f) :: drop ID r
  end.

(** [m.cache.Get(ID)] *)
Definition Get (r : Registry) (ID : string) : Registry * option smartfile.File :=
  match find ID (files r) with
  | Some f => (mkRegistry (bound r) ((ID, f) :: drop ID (files r)), Some f)
  | None => (r, None)
  end.

(** [m.cache.Add(ID, sf)] *)
Definition Add (r : Registry) (ID : string) (sf : smartfile.File) : Registry :=
  let l := (ID, sf) :: drop ID (files r) in
  if negb (bound r =? 0) && (bound r <? Z.of_nat (length l))
  then mkRegistry (bound r) (removelast l)
  else mkRegistry (bound r) l.

(** The registry holds pointers: a method that changed the file it got from
    the registry has changed the registered file.  [update] writes the new
    state of the file back in place. *)
Fixpoint update (ID : string) (f' : smartfile.File) (l : list (string * smartfile.File))
  : list (string * smartfile.File) :=
  match l with
  | [] => []
  | (k, f) :: r => if String.eqb k ID then (k, f') :: r else (k, f) :: update ID f' r
  end.

(** [type ManagerStruct struct { cache ... }] *)
Record ManagerStruct := mkManager { cache : Registry }.

Definition mutated (m : ManagerStruct) (ID : string) (f' : smartfile.File) : ManagerStruct :=
  mkManager (mkRegistry (bound (cache m)) (update ID f' (files (cache m)))).

(** The capacity both [Create] and [getFileFromCache] pass to [NewFile]. *)
Definition fileCapacity : Z := 100000.

(** [Create] *)
Definition Create (m : ManagerStruct) (ID : string) : M (ManagerStruct * option Go.error) :=
  ' (sf, err) <- smartfile.NewFile (filepath_Join dataPath ID) fileCapacity ;;
  match sf, err with
  | Some f, None => ret (mkManager (Add (cache m) ID f), None)
  | _, _ => ret (m, err)
  end.

(** [getFileFromCache]: the manager, the file pointer ([None] for nil) and the
    error. *)
Definition getFileFromCache (m : ManagerStruct) (ID : string)
  : M (ManagerStruct * option smartfile.File * option Go.error) :=
  match Get (cache m) ID with
  | (r, Some f) => ret (mkManager r, Some f, None)
  | (r, None) =>
      ' (sf, err) <- smartfile.NewFile (filepath_Join dataPath ID) fileCapacity ;;
      match sf, err with
      | Some f, None => ret (mkManager (Add r ID f), sf, err)
      | _, _ => ret (mkManager r, sf, err)
      end
  end.

(** [SaveData]: [f.Write] is called whatever [err] is. *)
Definition SaveData (m : ManagerStruct) (ID : string) (data : list byte) (offset : Z)
  : M (ManagerStruct * option Go.error) :=
  ' (m1, f, err) <- getFileFromCache m ID ;;
  match f with
  | None => panic "invalid memory address or nil pointer dereference"
  | Some fq =>
      fq' <- smartfile.Write fq data offset ;;
      ret (mutated m1 ID fq', err)
  end.

(** [DeleteData] *)
Definition DeleteData (m : ManagerStruct) (ID : string) : M (ManagerStruct * option Go.error) :=
  let (r, v) := Get (cache m) ID in
  m1 <- match v with
        | Some fq => fq' <- smartfile.Purge fq ;; ret (mutated (mkManager r) ID fq')
        | None => ret (mkManager r)
        end ;;
  err <- Remove (filepath_Join dataPath ID) ;;
  ret (m1, err).

(** [FlushData] *)
Definition FlushData (m : ManagerStruct) (ID : string) : M (ManagerStruct * option Go.error) :=
  ' (m1, f, _) <- getFileFromCache m ID ;;
  match f with
  | None => panic "invalid memory address or nil pointer dereference"
  | Some fq =>
      ' (fq', _) <- smartfile.Flush fq ;;
      ret (mutated m1 ID fq', None)
  end.

(** [LoadData] *)
Definition LoadData (m : ManagerStruct) (ID : string) (offset length : Z)
  : M (ManagerStruct * option (list byte) * option Go.error) :=
  ' (m1, sf, err) <- getFileFromCache m ID ;;
  match sf, err with
  | Some fq, None =>
      length' <- (if length =? 0 then smartfile.GetSize fq else ret length) ;;
      if length' <? 0 then panic "makeslice: len out of range"
      else
        ' (fq', data, err') <- smartfile.Read fq (repeat x00 (Z.to_nat length')) offset ;;
        match err' with
        | Some e => ret (mutated m1 ID fq', None, Some e)
        | None => ret (mutated m1 ID fq', Some data, None)
        end
  | None, None => panic "invalid memory address or nil pointer dereference"
  | _, Some e => ret (m1, None, Some e)
  end.

End WithEnv.
End storage.

(** ** Package sketches, the proxy *)

Module sketches.

(** [abstract.Info], declared outside the sources: the identifier, the type tag
    and the numeric properties the proxy counts in. *)
Record Info := mkInfo { ID : string; Type_ : string; Properties : list (string * Z) }.

(** [info.Properties[name]++] (a missing key reads as zero). *)
Fixpoint bump (name : string) (l : list (string * Z)) : list (string * Z) :=
  match l with
  | [] => [(name, 1)]
  | (k, v) :: r => if String.eqb k name then (k, v + 1) :: r else (k, v) :: bump name r
  end.

Definition counted (name : string) (i : Info) : Info :=
  mkInfo (ID i) (Type_ i) (bump name (Properties i)).

(** [info.Properties[name]]: a missing key reads as zero. *)
Fixpoint property (name : string) (l : list (string * Z)) : Z :=
  match l with
  | [] => 0
  | (k, v) :: r => if String.eqb k name then v else property name r
  end.

(** [info.Properties[name] = v] *)
Fixpoint assign (name : string) (v : Z) (l : list (string * Z)) : list (string * Z) :=
  match l with
  | [] => [(name, v)]
  | (k, v0) :: r => if String.eqb k name then (k, v) :: r else (k, v0) :: assign name v r
  end.

(** What a sketch constructor answers in [createSketch]; [InvalidType] is the
    [default] branch of the switch on the type tag, where no constructor runs.
    A constructor is given the pointer to the [Info] and may write through it
    (the count-min-log one does, see [cml.NewSketch]), and the proxy keeps the
    same pointer: [Failed] and [Built] carry the [Info] as the constructor
    leaves it. *)
Inductive Made (S : Type) :=
| InvalidType
| Failed (i' : Info) (e : Go.error)
| Built (i' : Info) (s : S).

Arguments InvalidType {S}.
Arguments Failed {S} i' e.
Arguments Built {S} i' s.

(** The collaborators of the proxy outside the sources: the interface
    [abstract.Sketch] with the constructors of its five variants, and
    [json.Marshal] on [Info]. *)
Class Collab := {
  Sketch : Type;
  AddMultiple : Sketch -> list (list byte) -> Sketch * (bool * option Go.error);
  RemoveMultiple : Sketch -> list (list byte) -> Sketch * (bool * option Go.error);
  Marshal : Sketch -> list byte * option Go.error;
  NewSketch : Info -> Made Sketch;
  json_Marshal : Info -> list byte;
}.

Section WithEnv.
Context {E : Env} {K : Collab}.
Local Open Scope go_scope.

(** [type SketchProxy struct { *abstract.Info; sketch; lock; ops uint; dirty bool }].
    The lock is not modelled: calls are taken one at a time. *)
Record SketchProxy := mkProxy {
  info : Info;
  sketch : Sketch;
  ops : Z;
  dirty : bool;
}.

(** The package-level singletons the proxy reaches: [storage.Manager()],
    [config.GetConfig().SaveThresholdOps] and what [logger.Error] printed. *)
Record Globals := mkGlobals {
  manager : storage.ManagerStruct;
  SaveThresholdOps : Z;
  logged : list Go.error;
}.

Definition setManager (g : Globals) (m : storage.ManagerStruct) : Globals :=
  mkGlobals m (SaveThresholdOps g) (logged g).

(** [if err != nil { logger.Error.Println(err) }] *)
Definition logErr (g : Globals) (err : option Go.error) : Globals :=
  match err with
  | Some e => mkGlobals (manager g) (SaveThresholdOps g) (logged g ++ [e])
  | None => g
  end.

(** [save] *)
Definition save (g : Globals) (sp : SketchProxy) (force : bool) : M (Globals * SketchProxy) :=
  if negb (dirty sp) then ret (g, sp)
  else if SaveThresholdOps g =? 0 then panic "integer divide by zero"
  else if (ops sp mod SaveThresholdOps g =? 0) || force then
    let sp1 := mkProxy (info sp) (sketch sp) (Go.uint_wrap (ops sp + 1)) false in
    let (serialized, err) := Marshal (sketch sp1) in
    let g1 := logErr g err in
    ' (m, err) <- storage.SaveData (manager g1) (ID (info sp1)) serialized 0 ;;
    let g2 := logErr (setManager g1 m) err in
    err <- SaveInfo (ID (info sp1)) (json_Marshal (info sp1)) ;;
    ret (logErr g2 err, sp1)
  else ret (g, sp).

(** [Add]: the result of [AddMultiple] is computed, then the deferred [save]
    runs, then the call returns that result. *)
Definition Add (g : Globals) (sp : SketchProxy) (values : list (list byte))
  : M (Globals * SketchProxy * (bool * option Go.error)) :=
  let sp1 := mkProxy (counted "adds" (info sp)) (sketch sp) (Go.uint_wrap (ops sp + 1)) true in
  let (sk, r) := AddMultiple (sketch sp1) values in
  ' (g', sp2) <- save g (mkProxy (info sp1) sk (ops sp1) (dirty sp1)) false ;;
  ret (g', sp2, r).

(** [Remove] *)
Definition Remove (g : Globals) (sp : SketchProxy) (values : list (list byte))
  : M (Globals * SketchProxy * (bool * option Go.error)) :=
  let sp1 := mkProxy (counted "remove" (info sp)) (sketch sp) (Go.uint_wrap (ops sp + 1)) true in
  let (sk, r) := RemoveMultiple (sketch sp1) values in
  ' (g', sp2) <- save g (mkProxy (info sp1) sk (ops sp1) (dirty sp1)) false ;;
  ret (g', sp2, r).

(** [createSketch] (the autosave goroutine it starts is not modelled).  After
    the constructor has run, [info] is read through the pointer again: the
    proxy, the second [Create] and the save see the [Info] as the constructor
    left it. *)
Definition createSketch (g : Globals) (i : Info)
  : M (Globals * option SketchProxy * option Go.error) :=
  ' (m1, err) <- storage.Create (manager g) (ID i) ;;
  match err with
  | Some _ => ret (setManager g m1, None, Some "Error creating new sketch")
  | None =>
      match NewSketch i with
      | InvalidType => ret (setManager g m1, None, Some ("Invalid sketch type: " ++ Type_ i)%string)
      | Failed _ _ => ret (setManager g m1, None, Some "Error creating new sketch")
      | Built i' sk =>
          let sp := mkProxy i' sk 0 true in
          ' (m2, err) <- storage.Create m1 (ID i') ;;
          match err with
          | Some e => ret (setManager g m2, None, Some e)
          | None =>
              ' (g', sp') <- save (setManager g m2) sp true ;;
              ret (g', Some sp', None)
          end
      end
  end.

(** A mutation request. *)
Inductive Mutation :=
| MAdd (values : list (list byte))
| MRemove (values : list (list byte)).

Definition mutate (g : Globals) (sp : SketchProxy) (op : Mutation)
  : M (Globals * SketchProxy * (bool * option Go.error)) :=
  match op with
  | MAdd values => Add g sp values
  | MRemove values => Remove g sp values
  end.

(** A sequence of mutations on one proxy, nothing else running in between
    (in particular no forced save). *)
Fixpoint mutateAll (g : Globals) (sp : SketchProxy) (l : list Mutation)
  : M (Globals * SketchProxy) :=
  match l with
  | [] => ret (g, sp)
  | op :: r => ' (g', sp', _) <- mutate g sp op ;; mutateAll g' sp' r
  end.

End WithEnv.
End sketches.

(** ** Package cml, the wrapper of the count-min-log sketch *)

Module cml.
Import sketches.

(** [const defaultCapacity = 1000000.0] *)
Definition defaultCapacity : Z := 1000000.

(** [NewSketch], as far as the sources go: what it writes through [info].  A
    capacity of zero, or none, becomes the default.  (The sketch itself comes
    from a constructor of the library outside the sources.) *)
Definition NewSketch (info : Info) : Info :=
  if property "capacity" (Properties info) =? 0
  then mkInfo (ID info) (Type_ info) (assign "capacity" defaultCapacity (Properties info))
  else info.

End cml.

(** ** Package bloom, the filter behind the Bloom sketch *)

Module bloom.

(** [uint64] arithmetic wraps modulo [2^64]. *)
Definition u64 (z : Z) : Z := z mod 2 ^ 64.

(** [uint64(c)] of a byte. *)
Definition byteZ (c : byte) : Z := Z.of_N (Strings.Byte.to_N c).

(** [type Filter struct { m uint; k uint; b *bitset.BitSet }].  The bit set
    comes from a library outside the sources; of it the filter uses [Set],
    [Test] and [ClearAll] only, which are modelled on the number whose binary
    digits are the bits: [Set(i)] is [Z.setbit], [Test(i)] is [Z.testbit] (a
    bit beyond the length reads as unset) and [ClearAll] gives 0. *)
Record Filter := mkFilter { m : Z; k : Z; b : Z }.

(** [New] *)
Definition New (m k : Z) : Filter := mkFilter m k 0.

(** [fnv64Hash] *)
Definition fnv64Hash (index : Z) (data : list byte) : Z :=
  fold_left (fun hash c => u64 (Z.lxor hash (byteZ c) * 1099511628211))
            data (u64 (index + 14695981039346656037)).

(** [baseHashes] *)
Definition baseHashes (data : list byte) : list Z :=
  [fnv64Hash 0 data; fnv64Hash 1 data; fnv64Hash 2 data; fnv64Hash 3 data].

(** [h[j]]: an index out of range panics ([None]). *)
Definition at_ (h : list Z) (j : Z) : option Z :=
  if j <? 0 then None else nth_error h (Z.to_nat j).

(** [location]: [None] is a panic, an index out of range or the division by
    [m = 0]. *)
Definition location (f : Filter) (h : list Z) (i : Z) : option Z :=
  let ii := u64 i in
  match at_ h (ii mod 2), at_ h (2 + (u64 (ii + ii mod 2) mod 4) / 2) with
  | Some h1, Some h2 =>
      if u64 (m f) =? 0 then None
      else Some (u64 (h1 + u64 (ii * h2)) mod u64 (m f))
  | _, _ => None
  end.

(** [Cap] and [K] *)
Definition Cap (f : Filter) : Z := m f.
Definition K (f : Filter) : Z := k f.

(** The loop of [Add]: [n] turns are left, the next index is [i]. *)
Fixpoint addLoop (n : nat) (i : Z) (h : list Z) (f : Filter) : option Filter :=
  match n with
  | O => Some f
  | S n' =>
      match location f h i with
      | None => None
      | Some l => addLoop n' (i + 1) h (mkFilter (m f) (k f) (Z.setbit (b f) l))
      end
  end.

(** [Add] *)
Definition Add (f : Filter) (data : list byte) : option Filter :=
  addLoop (Z.to_nat (k f)) 0 (baseHashes data) f.

(** The loop of [Test], which returns at the first bit that is not set. *)
Fixpoint testLoop (n : nat) (i : Z) (h : list Z) (f : Filter) : option bool :=
  match n with
  | O => Some true
  | S n' =>
      match location f h i with
      | None => None
      | Some l => if Z.testbit (b f) l then testLoop n' (i + 1) h f else Some false
      end
  end.

(** [Test] *)
Definition Test (f : Filter) (data : list byte) : option bool :=
  testLoop (Z.to_nat (k f)) 0 (baseHashes data) f.

(** The loop of [TestAndAdd], with the flag [present]. *)
Fixpoint testAndAddLoop (n : nat) (i : Z) (h : list Z) (present : bool) (f : Filter)
  : option (bool * Filter) :=
  match n with
  | O => Some (present, f)
  | S n' =>
      match location f h i with
      | None => None
      | Some l =>
          testAndAddLoop n' (i + 1) h
            (if Z.testbit (b f) l then present else false)
            (mkFilter (m f) (k f) (Z.setbit (b f) l))
      end
  end.

(** [TestAndAdd] *)
Definition TestAndAdd (f : Filter) (data : list byte) : option (bool * Filter) :=
  testAndAddLoop (Z.to_nat (k f)) 0 (baseHashes data) true f.

(** [ClearAll] *)
Definition ClearAll (f : Filter) : Filter := mkFilter (m f) (k f) 0.

(** [Add] for each key in turn. *)
Fixpoint AddEach (f : Filter) (keys : list (list byte)) : option Filter :=
  match keys with
  | [] => Some f
  | d :: r => match Add f d with
              | None => None
              | Some f' => AddEach f' r
              end
  end.

End bloom.

(** ** Sequences of cache insertions *)

Module puts.

(** [Add] for each pair in turn; the entries handed to [OnEvicted] on the way,
    in order. *)
Fixpoint AddAll (c : smartfile.Cache) (l : list (Z * smartfile.item))
  : smartfile.Cache * list smartfile.entry :=
  match l with
  | [] => (c, [])
  | (k, v) :: r =>
      let (c1, ev) := smartfile.Add c k v in
      let (c2, evs) := AddAll c1 r in
      (c2, match ev with Some e => e :: evs | None => evs end)
  end.

(** The eviction policy in the words of the specification, for comparison
    with [smartfile.removeOldest]: the candidates are the entries but the most
    recently used one, scanned from the least recently used on; the first
    clean candidate is the victim, and the least recently used entry when no
    candidate is clean. *)
Definition specVictim (c : smartfile.Cache) : option smartfile.entry :=
  match rev (smartfile.ll c) with
  | [] => None
  | oldest :: newer =>
      match smartfile.scan (oldest :: removelast newer) with
      | Some e => Some e
      | None => Some oldest
      end
  end.

End puts.

(** ** A simulated environment, for running the model on concrete inputs *)

Module Sim.

(** Files by path, the handles opened so far (handle [n] is the [n]-th), the
    handles closed, the paths the system refuses to open (and the identifiers
    whose metadata record it refuses to store), and the metadata records
    stored. *)
Record SimWorld := mkWorld {
  disk : list (string * list byte);
  handles : list string;
  closed : list nat;
  denied : list string;
  infos : list (string * list byte);
}.

Fixpoint content (path : string) (d : list (string * list byte)) : option (list byte) :=
  match d with
  | [] => None
  | (p, c) :: r => if String.eqb p path then Some c else content path r
  end.

Fixpoint store (path : string) (c : list byte) (d : list (string * list byte))
  : list (string * list byte) :=
  match d with
  | [] => [(path, c)]
  | (p, c0) :: r => if String.eqb p path then (p, c) :: r else (p, c0) :: store path c r
  end.

Fixpoint erase (path : string) (d : list (string * list byte)) : list (string * list byte) :=
  match d with
  | [] => []
  | (p, c) :: r => if String.eqb p path then r else (p, c) :: erase path r
  end.

Definition mem_nat (n : nat) (l : list nat) : bool := existsb (Nat.eqb n) l.
Definition mem_str (p : string) (l : list string) : bool := existsb (String.eqb p) l.

(** The path behind an open handle. *)
Definition live (h : nat) (w : SimWorld) : option string :=
  if mem_nat h (closed w) then None else nth_error (handles w) h.

(** [pwrite]: the file grows with zero bytes up to the offset when needed. *)
Definition pwrite (c b : list byte) (off : nat) : list byte :=
  firstn off (c ++ repeat x00 (off - length c)) ++ b ++ skipn (off + length b) c.

(** [pread]: the bytes read land at the start of the buffer; a short read is
    an error ([io.EOF]). *)
Definition pread (c buf : list byte) (off : nat) : list byte * option Go.error :=
  let got := firstn (length buf) (skipn off c) in
  (got ++ skipn (length got) buf,
   if (length got <? length buf)%nat then Some "EOF" else None).

Definition sim_OpenFile (path : string) (w : SimWorld) : (nat + Go.error) * SimWorld :=
  if mem_str path (denied w) then (inr ("open " ++ path ++ ": permission denied")%string, w)
  else
    let d := match content path (disk w) with
             | Some _ => disk w
             | None => store path [] (disk w)
             end in
    (inl (length (handles w)),
     mkWorld d (handles w ++ [path]) (closed w) (denied w) (infos w)).

Definition sim_ReadAt (h : nat) (buf : list byte) (off : Z) (w : SimWorld)
  : (list byte * option Go.error) * SimWorld :=
  match live h w with
  | None => ((buf, Some "file already closed"), w)
  | Some path =>
      if off <? 0 then ((buf, Some "negative offset"), w)
      else match content path (disk w) with
           | None => ((buf, Some "no such file"), w)
           | Some c => (pread c buf (Z.to_nat off), w)
           end
  end.

Definition sim_WriteAt (h : nat) (b : list byte) (off : Z) (w : SimWorld)
  : option Go.error * SimWorld :=
  match live h w with
  | None => (Some "file already closed", w)
  | Some path =>
      if off <? 0 then (Some "negative offset", w)
      else match content path (disk w) with
           | None => (Some "no such file", w)
           | Some c =>
               (None, mkWorld (store path (pwrite c b (Z.to_nat off)) (disk w))
                        (handles w) (closed w) (denied w) (infos w))
           end
  end.

Definition sim_Close (h : nat) (w : SimWorld) : option Go.error * SimWorld :=
  match live h w with
  | None => (Some "file already closed", w)
  | Some _ => (None, mkWorld (disk w) (handles w) (h :: closed w) (denied w) (infos w))
  end.

Definition sim_Stat_Size (h : nat) (w : SimWorld) : option Z * SimWorld :=
  match live h w with
  | None => (None, w)
  | Some path => (option_map (fun c => Z.of_nat (length c)) (content path (disk w)), w)
  end.

Definition sim_Remove (path : string) (w : SimWorld) : option Go.error * SimWorld :=
  match content path (disk w) with
  | None => (Some "no such file or directory", w)
  | Some _ => (None, mkWorld (erase path (disk w)) (handles w) (closed w) (denied w) (infos w))
  end.

Definition sim_SaveInfo (id : string) (info : list byte) (w : SimWorld)
  : option Go.error * SimWorld :=
  if mem_str id (denied w) then (Some ("info " ++ id ++ ": permission denied")%string, w)
  else (None, mkWorld (disk w) (handles w) (closed w) (denied w) (store id info (infos w))).

(** The simulated run time ranges over a map from the last element of the
    model's list to the first. *)
#[export] Instance env : Env := {|
  World := SimWorld;
  Handle := nat;
  os_OpenFile := sim_OpenFile;
  os_ReadAt := sim_ReadAt;
  os_WriteAt := sim_WriteAt;
  os_Close := sim_Close;
  os_Stat_Size := sim_Stat_Size;
  os_Remove := sim_Remove;
  filepath_Join := fun a b => (a ++ "/" ++ b)%string;
  dataPath := "/data";
  manager_SaveInfo := sim_SaveInfo;
  go_maprange := fun A l w => (rev l, w);
  go_maprange_perm := fun A l w => Permutation_sym (Permutation_rev l);
|}.

(** A dictionary sketch: the keys added, newest first; removal is not
    supported. *)
#[export] Instance dict : sketches.Collab := {|
  sketches.Sketch := list (list byte);
  sketches.AddMultiple := fun s vs => (rev vs ++ s, (true, None));
  sketches.RemoveMultiple := fun s vs => (s, (false, Some "Not supported"));
  sketches.Marshal := fun s => (concat s, None);
  sketches.NewSketch := fun i => sketches.Built i [];
  sketches.json_Marshal := fun i => list_byte_of_string (sketches.ID i);
|}.

(** An empty world with nothing opened yet. *)
Definition fresh : St := mkSt (mkWorld [] [] [] [] []) [].

(** A world that refuses to open [path]. *)
Definition refusing (path : string) : St := mkSt (mkWorld [] [] [] [path] []) [].

Definition b (s : string) : list byte := list_byte_of_string s.

(** A five-byte file at [/data/x], nothing opened yet. *)
Definition hello : St := mkSt (mkWorld [("/data/x", b "hello")] [] [] [] []) [].

(** The file a program holds after opening [/data/x] with capacity 2, purging
    it (which closes the handle) and writing one byte at offset 0. *)
Definition stale : Res smartfile.File :=
  bind (smartfile.NewFile "/data/x" 2) (fun r =>
    match fst r with
    | None => panic "no file"
    | Some fq =>
        bind (smartfile.Purge fq) (fun fq1 => smartfile.Write fq1 (b "a") 0)
    end) fresh.

(** [/data/x] open as handle 0 and empty: the state [NewFile] leaves from
    [fresh]. *)
Definition xopen : St :=
  mkSt (mkWorld [("/data/x", [])] ["/data/x"] [] [] []) [EvOpenFile "/data/x"].

(** The file [NewFile "/data/x" 1] returns from [fresh]. *)
Definition xfile : smartfile.File :=
  smartfile.mkFile "/data/x" 0%nat (smartfile.NewLRU 1) 1 0.

(** [xfile] after [Write "kiss" 4] was served without a flush reaching the
    entry: four dirty bytes cached at offset 4. *)
Definition kissFile : smartfile.File :=
  smartfile.mkFile "/data/x" 0%nat
    (smartfile.mkCache 1 [smartfile.mkEntry 4 (smartfile.mkItem (b "kiss") true)]) 1 1.

(** The file the registry opens for ["x"], with its fixed capacity. *)
Definition xregistered : smartfile.File :=
  smartfile.mkFile "/data/x" 0%nat (smartfile.NewLRU 100000) 100000 0.

(** The registry after [Create "x"] from an empty one. *)
Definition xmanager : storage.ManagerStruct :=
  storage.mkManager (storage.mkRegistry 16 [("x", xregistered)]).

Definition nomanager : storage.ManagerStruct :=
  storage.mkManager (storage.mkRegistry 16 []).

(** The singletons with threshold [T] and the given registry. *)
Definition globals (T : Z) (m : storage.ManagerStruct) : sketches.Globals :=
  sketches.mkGlobals m T [].

Definition xinfo : sketches.Info := sketches.mkInfo "x" "dict" [].

(** A proxy for ["x"] with the given counter and flag. *)
Definition xproxy (n : Z) (d : bool) : sketches.SketchProxy :=
  sketches.mkProxy xinfo [] n d.

Definition zeros (n : nat) : list byte := repeat x00 n.

(** A full cache of capacity 2 whose two entries are clean; offset 1 is the
    least recently used. *)
Definition twoClean : smartfile.Cache :=
  smartfile.mkCache 2
    [smartfile.mkEntry 2 (smartfile.mkItem (b "two") false);
     smartfile.mkEntry 1 (smartfile.mkItem (b "one") false)].

(** Three insertions at distinct offsets and one overwrite. *)
Definition fourPuts : list (Z * smartfile.item) :=
  [(4, smartfile.mkItem (b "beast") true);
   (14, smartfile.mkItem (b "storm") true);
   (4, smartfile.mkItem (b "kiss") true);
   (24, smartfile.mkItem (b "x") false)].

(** Four entries, newest first: offsets 4 (dirty), 3 (clean), 2 (dirty) and
    1 (clean, least recently used), under a bound of 4. *)
Definition mixed : smartfile.Cache :=
  smartfile.mkCache 4
    [smartfile.mkEntry 4 (smartfile.mkItem (b "four") true);
     smartfile.mkEntry 3 (smartfile.mkItem (b "three") false);
     smartfile.mkEntry 2 (smartfile.mkItem (b "two") true);
     smartfile.mkEntry 1 (smartfile.mkItem (b "one") false)].

(** A full cache of capacity 2 whose two entries are dirty. *)
Definition twoDirty : smartfile.Cache :=
  smartfile.mkCache 2
    [smartfile.mkEntry 2 (smartfile.mkItem (b "two") true);
     smartfile.mkEntry 1 (smartfile.mkItem (b "one") true)].

(** The file [NewFile "/data/x" 2] returns from [fresh]. *)
Definition xfile2 : smartfile.File :=
  smartfile.mkFile "/data/x" 0%nat (smartfile.NewLRU 2) 2 0.

(** The registered file of ["x"] with four dirty bytes cached at offset 0
    and nothing on the medium yet. *)
Definition xunflushed : smartfile.File :=
  smartfile.mkFile "/data/x" 0%nat
    (smartfile.mkCache 100000 [smartfile.mkEntry 0 (smartfile.mkItem (b "kiss") true)])
    100000 1.

(** A file of four entries, from the most recent: offset 8 (dirty), offset -1
    (dirty; the system refuses a write at a negative offset), offset 2 (clean)
    and offset 4, the oldest, dirty or not as [d] says. *)
Definition stuck (d : bool) : smartfile.File :=
  smartfile.mkFile "/data/x" 0%nat
    (smartfile.mkCache 4
       [smartfile.mkEntry 8 (smartfile.mkItem (b "late") true);
        smartfile.mkEntry (-1) (smartfile.mkItem (b "bad") true);
        smartfile.mkEntry 2 (smartfile.mkItem (b "two") false);
        smartfile.mkEntry 4 (smartfile.mkItem (b "kiss") d)])
    100 4.

(** The state a flush of [stuck true] leaves from [xopen]: the write at
    offset 4 has reached the medium, the one at offset -1 was refused. *)
Definition stuckEnd : St :=
  mkSt (mkWorld [("/data/x", zeros 4 ++ b "kiss")] ["/data/x"] [] [] [])
       (trace xopen ++ [EvWriteAt 0%nat (b "kiss") 4; EvWriteAt 0%nat (b "bad") (-1)]).

(** The registered file of ["x"] with two entries cached: four dirty bytes
    at offset 4, the most recent, and five clean bytes at offset 0. *)
Definition xcached : smartfile.File :=
  smartfile.mkFile "/data/x" 0%nat
    (smartfile.mkCache 100000
       [smartfile.mkEntry 4 (smartfile.mkItem (b "kiss") true);
        smartfile.mkEntry 0 (smartfile.mkItem (b "beast") false)])
    100000 2.

Definition xholding : storage.ManagerStruct :=
  storage.mkManager (storage.mkRegistry 16 [("x", xcached)]).

Definition xpending : storage.ManagerStruct :=
  storage.mkManager (storage.mkRegistry 16 [("x", xunflushed)]).

(** As [xopen], in a system that refuses to store the metadata record of
    ["x"]. *)
Definition xnoinfo : St :=
  mkSt (mkWorld [("/data/x", [])] ["/data/x"] [] ["x"] []) [EvOpenFile "/data/x"].

(** [/data/x] exists, empty, and its handle 0 has been closed. *)
Definition xclosed : St :=
  mkSt (mkWorld [("/data/x", [])] ["/data/x"] [0%nat] [] []) [].

(** A filter of 64 bits with three hash functions, and a filter after a
    key has been added to it. *)
Definition sieve : bloom.Filter := bloom.New 64 3.
Definition adding (f : bloom.Filter) (d : list byte) : bloom.Filter :=
  match bloom.Add f d with Some f' => f' | None => f end.

(** A sketch collaborator that knows the type tag ["dict"] only. *)
Definition typed : sketches.Collab := {|
  sketches.Sketch := list (list byte);
  sketches.AddMultiple := fun s vs => (rev vs ++ s, (true, None));
  sketches.RemoveMultiple := fun s vs => (s, (false, Some "Not supported"));
  sketches.Marshal := fun s => (concat s, None);
  sketches.NewSketch := fun i =>
    if String.eqb (sketches.Type_ i) "dict" then sketches.Built i [] else sketches.InvalidType;
  sketches.json_Marshal := fun i => list_byte_of_string (sketches.ID i);
|}.

(** A collaborator with the count-min-log constructor, which writes the
    capacity into the [Info]; the record it stores is the identifier followed
    by the names of the properties. *)
Definition counting : sketches.Collab := {|
  sketches.Sketch := list (list byte);
  sketches.AddMultiple := fun s vs => (rev vs ++ s, (true, None));
  sketches.RemoveMultiple := fun s vs => (s, (false, Some "Not supported"));
  sketches.Marshal := fun s => (concat s, None);
  sketches.NewSketch := fun i =>
    if String.eqb (sketches.Type_ i) "cml" then sketches.Built (cml.NewSketch i) []
    else sketches.InvalidType;
  sketches.json_Marshal := fun i =>
    list_byte_of_string (String.concat "," (sketches.ID i :: map fst (sketches.Properties i)));
|}.

(** The [Info] of a count-min-log sketch created without a capacity. *)
Definition cinfo : sketches.Info := sketches.mkInfo "x" "cml" [].

End Sim.

(** ** Observations the properties are stated with *)

Module Obs.

Section OfFiles.
Context {E : Env}.
Import smartfile.

(** The bytes cached at an offset. *)
Definition cachedBytes (l : list entry) (k : Z) : option (list byte) :=
  option_map (fun e => bytes (value e)) (lookup k l).

(** The dirty flag cached at an offset. *)
Definition cachedDirty (l : list entry) (k : Z) : option bool :=
  option_map (fun e => dirty (value e)) (lookup k l).

(** The entry holds bytes the file has not been given yet. *)
Definition isDirty (x : entry) : Prop := dirty (value x) = true.

(** From [s] to [s'] the only calls made were positional writes. *)
Definition wrote (s s' : St) : Prop :=
  exists evs, trace s' = trace s ++ evs /\ forallb isWriteAt evs = true.

(** What [Flush] leaves as it was: the entries with their bytes, and
    everything of the file but the dirty flags. *)
Definition sameContents (fq fq' : File) : Prop :=
  (forall k, cachedBytes (ll (queue fq')) k = cachedBytes (ll (queue fq)) k) /\
  map key (ll (queue fq')) = map key (ll (queue fq)) /\
  id fq' = id fq /\ size fq' = size fq /\ ops fq' = ops fq /\ file fq' = file fq /\
  MaxEntries (queue fq') = MaxEntries (queue fq).

End OfFiles.

Section OfRegistry.
Context {E : Env}.

(** The state [Purge] leaves a file in: the cache empty, the counter zero. *)
Definition purged (fq : smartfile.File) : smartfile.File :=
  smartfile.setOps
    (smartfile.setQueue fq (smartfile.mkCache (smartfile.MaxEntries (smartfile.queue fq)) [])) 0.

(** The call the eviction callback makes for an entry. *)
Definition writeBack (h : Handle) (e : smartfile.entry) : Event :=
  EvWriteAt h (smartfile.bytes (smartfile.value e)) (smartfile.key e).

(** The entries a flush owes a write for the keys [ks]: the dirty ones, in
    the order of the keys. *)
Definition owed (l : list smartfile.entry) (ks : list Z) : list smartfile.entry :=
  flat_map (fun k => match smartfile.lookup k l with
                     | Some e => if smartfile.dirty (smartfile.value e) then [e] else []
                     | None => []
                     end) ks.

(** What the system answers to the positional writes of the entries [es] on
    [h], issued one after the other from the world [w], and the world they
    leave. *)
Fixpoint replies (h : Handle) (es : list smartfile.entry) (w : World)
  : list (option Go.error) * World :=
  match es with
  | [] => ([], w)
  | e :: r =>
      let (a, w1) := os_WriteAt h (smartfile.bytes (smartfile.value e)) (smartfile.key e) w in
      let (l, w2) := replies h r w1 in
      (a :: l, w2)
  end.

(** How a flush ended, told by the answers to the writes it issued: without
    an error every write was answered [nil]; with the error [e] the last
    write was answered [e] and every write before it [nil]. *)
Definition ended (err : option Go.error) (answers : list (option Go.error)) : Prop :=
  match err with
  | None => Forall (fun a => a = None) answers
  | Some e => exists n, answers = repeat None n ++ [Some e]
  end.

End OfRegistry.

Section OfProxies.
Context {E : Env} {K : sketches.Collab}.
Import sketches.

(** The proxy as a mutation leaves it when the deferred [save] starts. *)
Definition touched (sp : SketchProxy) (op : Mutation) : SketchProxy :=
  match op with
  | MAdd values =>
      mkProxy (counted "adds" (info sp)) (fst (AddMultiple (sketch sp) values))
              (Go.uint_wrap (ops sp + 1)) true
  | MRemove values =>
      mkProxy (counted "remove" (info sp)) (fst (RemoveMultiple (sketch sp) values))
              (Go.uint_wrap (ops sp + 1)) true
  end.

(** What the sketch answered to the mutation. *)
Definition answer (sp : SketchProxy) (op : Mutation) : bool * option Go.error :=
  match op with
  | MAdd values => snd (AddMultiple (sketch sp) values)
  | MRemove values => snd (RemoveMultiple (sketch sp) values)
  end.

(** The error of a call as a list of log lines. *)
Definition errors (err : option Go.error) : list Go.error :=
  match err with
  | Some e => [e]
  | None => []
  end.

(** [save], entered with the proxy [sp], went through with the save: the
    proxy comes out clean with its counter one further, the calls made were
    positional writes followed by the storing of the metadata record, and the
    registered file of the proxy caches the serialized sketch at offset 0. *)
Definition saved (g' : Globals) (sp sp' : SketchProxy) (s s' : St) : Prop :=
  sp' = mkProxy (info sp) (sketch sp) (Go.uint_wrap (ops sp + 1)) false /\
  (exists evs,
     trace s' = trace s ++ evs ++ [EvSaveInfo (ID (info sp)) (json_Marshal (info sp))] /\
     forallb isWriteAt evs = true) /\
  (exists fq',
     storage.find (ID (info sp)) (storage.files (storage.cache (manager g'))) = Some fq' /\
     cachedBytes (smartfile.ll (smartfile.queue fq')) 0 = Some (fst (Marshal (sketch sp)))).

End OfProxies.

Section OfFilters.

(** The locations the loops of the filter visit: [n] of them from index [i]
    on, or [None] when computing one of them panics. *)
Fixpoint locations (f : bloom.Filter) (h : list Z) (n : nat) (i : Z) : option (list Z) :=
  match n with
  | O => Some []
  | S n' =>
      match bloom.location f h i, locations f h n' (i + 1) with
      | Some l, Some ls => Some (l :: ls)
      | _, _ => None
      end
  end.

(** A filter as the constructor and the methods keep it: sizes within
    [uint], at least one bit of capacity. *)
Definition sized (f : bloom.Filter) : Prop := 0 < bloom.m f < 2 ^ 64.

End OfFilters.

End Obs.

Import Obs.

(** * Properties *)

(** ** The cache *)

Section CacheFacts.

Import smartfile.

Lemma lookup_In (k : Z) (l : list entry) (e : entry) :
  lookup k l = Some e -> In e l /\ key e = k.
Proof.
  induction l as [|x r IH]; simpl; [discriminate|].
  destruct (key x =? k) eqn:Hk.
  - intros [= <-]. split; [now left | now apply Z.eqb_eq].
  - intros H. destruct (IH H). split; [now right | assumption].
Qed.

Lemma In_lookup (e : entry) (l : list entry) :
  In e l -> exists e', lookup (key e) l = Some e'.
Proof.
  induction l as [|x r IH]; simpl; [tauto|].
  intros [-> | H].
  - rewrite Z.eqb_refl. eauto.
  - destruct (key x =? key e); eauto.
Qed.

Lemma lookup_None_key (k : Z) (l : list entry) (e : entry) :
  lookup k l = None -> In e l -> key e <> k.
Proof.
  intros Hn Hin Hk. destruct (In_lookup _ _ Hin) as [e' He'].
  rewrite Hk in He'. congruence.
Qed.

Lemma unlink_length (k : Z) (l : list entry) (e : entry) :
  lookup k l = Some e -> S (length (unlink k l)) = length l.
Proof.
  induction l as [|x r IH]; simpl; [discriminate|].
  destruct (key x =? k); [reflexivity|].
  intros H. simpl. now rewrite IH.
Qed.

Lemma scan_In (l : list entry) (e : entry) :
  scan l = Some e -> In e l /\ dirty (value e) = false.
Proof.
  induction l as [|x r IH]; simpl; [discriminate|].
  destruct (dirty (value x)) eqn:Hd; simpl.
  - intros H. destruct (IH H). split; [now right | assumption].
  - intros [= <-]. split; [now left | assumption].
Qed.

(** What [removeOldest] evicts is an entry of the cache. *)
Lemma removeOldest_evicts_member (c : Cache) (c' : Cache) (e : entry) :
  removeOldest c = (c', Some e) ->
  In e (ll c) /\ ll c' = unlink (key e) (ll c) /\ MaxEntries c' = MaxEntries c.
Proof.
  unfold removeOldest, removeElement.
  destruct (rev (ll c)) as [|oldest newer] eqn:Hrev; [discriminate|].
  assert (Hsub : forall x, In x (oldest :: newer) -> In x (ll c)).
  { intros x Hx. apply in_rev. now rewrite Hrev. }
  destruct (scan newer) as [x|] eqn:Hscan; intros [= <- <-]; simpl.
  - apply scan_In in Hscan as [Hin _]. split; [apply Hsub; now right | auto].
  - split; [apply Hsub; now left | auto].
Qed.

(** On a cache that is not empty [removeOldest] evicts exactly one entry. *)
Lemma removeOldest_len (c : Cache) :
  ll c <> [] ->
  exists e, snd (removeOldest c) = Some e /\ len (fst (removeOldest c)) = len c - 1.
Proof.
  intros Hne.
  assert (Hsome : exists e, snd (removeOldest c) = Some e).
  { unfold removeOldest, removeElement.
    destruct (rev (ll c)) as [|oldest newer] eqn:Hrev.
    - apply (f_equal (@rev entry)) in Hrev. rewrite rev_involutive in Hrev. now elim Hne.
    - destruct (scan newer); simpl; eauto. }
  destruct Hsome as [e He]. exists e. split; [assumption|].
  destruct (removeOldest c) as [c' o] eqn:Hr. simpl in *. subst o.
  apply removeOldest_evicts_member in Hr as (Hin & Hll & _).
  destruct (In_lookup _ _ Hin) as [e' He'].
  apply unlink_length in He'. unfold len. rewrite Hll. lia.
Qed.

Lemma Add_MaxEntries (c : Cache) (k : Z) (v : item) :
  MaxEntries (fst (Add c k v)) = MaxEntries c.
Proof.
  unfold Add. destruct (lookup k (ll c)); [reflexivity|].
  match goal with |- context [if ?b then _ else _] => destruct b end; [|reflexivity].
  unfold removeOldest, removeElement; simpl.
  destruct (rev (ll c) ++ [_]); [reflexivity|].
  now destruct (scan l).
Qed.

(** One insertion keeps a positive bound. *)
Lemma Add_keeps_bound (c : Cache) (k : Z) (v : item) :
  0 < MaxEntries c -> len c <= MaxEntries c ->
  len (fst (Add c k v)) <= MaxEntries c.
Proof.
  intros Hpos Hle. unfold Add.
  destruct (lookup k (ll c)) as [e|] eqn:Hl.
  - apply unlink_length in Hl. unfold len in *. simpl. lia.
  - set (c1 := mkCache (MaxEntries c) (mkEntry k v :: ll c)).
    assert (Hlen1 : len c1 = len c + 1) by (unfold len; simpl; lia).
    destruct (negb (MaxEntries c1 =? 0) && (MaxEntries c1 <? len c1)) eqn:Hb.
    + destruct (removeOldest_len c1) as (e & _ & Hlen); [discriminate|]. lia.
    + simpl. apply andb_false_iff in Hb as [Hb | Hb].
      * apply negb_false_iff, Z.eqb_eq in Hb. simpl in Hb. lia.
      * apply Z.ltb_ge in Hb. simpl in Hb. lia.
Qed.

(** Without a bound nothing is ever evicted. *)
Lemma Add_unbounded (c : Cache) (k : Z) (v : item) :
  MaxEntries c = 0 ->
  Add c k v =
  (mkCache 0 (mkEntry k v :: match lookup k (ll c) with
                             | Some _ => unlink k (ll c)
                             | None => ll c
                             end), None).
Proof.
  intros H0. unfold Add. rewrite H0. now destruct (lookup k (ll c)).
Qed.

Lemma unlink_keys (k : Z) (l : list entry) :
  NoDup (map key l) ->
  NoDup (map key (unlink k l)) /\
  (forall x, In x (map key (unlink k l)) <-> In x (map key l) /\ x <> k).
Proof.
  induction l as [|e r IH]; simpl; intros Hnd.
  - split; [constructor | tauto].
  - inversion Hnd as [|? ? Hnot Hr]; subst.
    destruct (key e =? k) eqn:Hk.
    + apply Z.eqb_eq in Hk. split; [assumption|].
      intros x. split.
      * intros Hx. split; [now right|]. intros ->. now subst.
      * intros [[Hx | Hx] Hne]; [congruence | assumption].
    + apply Z.eqb_neq in Hk. destruct (IH Hr) as [IHnd IHin]. split.
      * simpl. constructor; [|assumption]. intros Hin. apply IHin in Hin. tauto.
      * intros x. simpl. rewrite IHin. split.
        -- intros [<- | [Hx Hne]]; [split; [now left | assumption] | split; [now right | assumption]].
        -- intros [[<- | Hx] Hne]; [now left | right; tauto].
Qed.

Lemma lookup_None_keys (k : Z) (l : list entry) :
  lookup k l = None -> ~ In k (map key l).
Proof.
  intros Hn Hin. apply in_map_iff in Hin as (e & <- & He).
  now apply (lookup_None_key _ _ _ Hn He).
Qed.

(** Without a bound, a run of insertions evicts nothing and ends with one
    entry per distinct key seen. *)
Lemma AddAll_unbounded (l : list (Z * item)) (c : Cache) :
  MaxEntries c = 0 -> NoDup (map key (ll c)) ->
  snd (puts.AddAll c l) = [] /\
  MaxEntries (fst (puts.AddAll c l)) = 0 /\
  NoDup (map key (ll (fst (puts.AddAll c l)))) /\
  (forall x, In x (map key (ll (fst (puts.AddAll c l)))) <->
             In x (map key (ll c)) \/ In x (map fst l)).
Proof.
  revert c. induction l as [|[k v] r IH]; intros c H0 Hnd; simpl.
  - repeat split; auto; tauto.
  - rewrite (Add_unbounded _ _ _ H0).
    set (c1 := mkCache 0 _).
    assert (Hnd1 : NoDup (map key (ll c1)) /\
                   forall x, In x (map key (ll c1)) <-> x = k \/ In x (map key (ll c))).
    { subst c1; simpl. destruct (lookup k (ll c)) eqn:Hl.
      - destruct (unlink_keys k _ Hnd) as [Hu Hin]. split.
        + constructor; [|assumption]. intros Hk. apply Hin in Hk. tauto.
        + intros x. rewrite Hin. destruct (Z.eq_dec x k); intuition congruence.
      - split.
        + constructor; [now apply lookup_None_keys | assumption].
        + intros x. intuition congruence. }
    destruct Hnd1 as [Hnd1 Hin1].
    destruct (IH c1 eq_refl Hnd1) as (Hev & Hmax & Hnd2 & Hin2).
    destruct (puts.AddAll c1 r) as [c2 evs]. simpl in *.
    repeat split; auto.
    + intros Hx. apply Hin2 in Hx as [Hx | Hx]; [|tauto].
      apply Hin1 in Hx as [-> | Hx]; tauto.
    + intros [Hx | [<- | Hx]]; apply Hin2.
      * left. apply Hin1. now right.
      * left. apply Hin1. now left.
      * now right.
Qed.

Lemma AddAll_bounded (l : list (Z * item)) (c : Cache) :
  0 < MaxEntries c -> len c <= MaxEntries c ->
  len (fst (puts.AddAll c l)) <= MaxEntries c.
Proof.
  revert c. induction l as [|[k v] r IH]; intros c Hpos Hle; simpl; [assumption|].
  pose proof (Add_keeps_bound c k v Hpos Hle) as H1.
  pose proof (Add_MaxEntries c k v) as Hm.
  destruct (Add c k v) as [c1 ev]. simpl in *.
  specialize (IH c1). rewrite Hm in IH.
  destruct (puts.AddAll c1 r) as [c2 evs]. simpl in *. apply IH; assumption.
Qed.

(** C6.  A cache made by [NewLRU c] with [0 < c] holds at most [c] entries
    after every insertion of any sequence of insertions; with [c = 0] no
    insertion evicts anything, and the cache ends with one entry per distinct
    offset inserted. *)
Theorem cache_bound (c : Z) (l : list (Z * item)) :
  (0 < c -> forall n : nat, len (fst (puts.AddAll (NewLRU c) (firstn n l))) <= c) /\
  (c = 0 ->
   snd (puts.AddAll (NewLRU c) l) = [] /\
   len (fst (puts.AddAll (NewLRU c) l)) = Z.of_nat (length (nodup Z.eq_dec (map fst l)))).
Proof.
  split.
  - intros Hc n. apply (AddAll_bounded (firstn n l) (NewLRU c)); simpl; [assumption|].
    unfold len; simpl; lia.
  - intros ->.
    destruct (AddAll_unbounded l (NewLRU 0) eq_refl (NoDup_nil Z)) as (Hev & _ & Hnd & Hin).
    split; [assumption|]. unfold len. f_equal.
    rewrite <- (length_map key). apply Permutation_length.
    apply NoDup_Permutation; [assumption | apply NoDup_nodup |].
    intros x. rewrite Hin, nodup_In. simpl. tauto.
Qed.

(** The bound of C6 on a cache of capacity 2 and four insertions. *)
Lemma cache_bound_witness :
  0 < 2 /\ forall n : nat, len (fst (puts.AddAll (NewLRU 2) (firstn n Sim.fourPuts))) <= 2.
Proof.
  split; [lia|]. apply (proj1 (cache_bound 2 Sim.fourPuts)). lia.
Defined.

(** With two or more entries, a clean entry next to the back of the list is
    evicted whatever the state of the entry at the back. *)
Lemma removeOldest_takes_second (c : Cache) (front : list entry) (second oldest : entry) :
  ll c = front ++ [second; oldest] ->
  dirty (value second) = false ->
  removeOldest c = removeElement c second.
Proof.
  intros Hll Hclean. unfold removeOldest.
  rewrite Hll, rev_app_distr. simpl. now rewrite Hclean.
Qed.

(** C1 (the code departs from it).  A full cache of two clean entries
    receives a third: [Add] evicts the entry at offset 2, the second oldest,
    while the scan the specification describes stops at the least recently
    used entry, offset 1, which is clean. *)
Theorem eviction_passes_over_clean_oldest :
  let v := mkItem (Sim.b "three") true in
  let inserted := mkCache 2 (mkEntry 3 v :: ll Sim.twoClean) in
  snd (Add Sim.twoClean 3 v) = Some (mkEntry 2 (mkItem (Sim.b "two") false)) /\
  puts.specVictim inserted = Some (mkEntry 1 (mkItem (Sim.b "one") false)) /\
  map key (ll (fst (Add Sim.twoClean 3 v))) = [3; 1].
Proof.
  repeat split.
Qed.

End CacheFacts.

(** ** The file *)

Section FileFacts.
Context {E : Env}.
Import smartfile.
Local Open Scope go_scope.

Lemma bind_Ok {A B : Type} (m : M A) (k : A -> M B) (s s1 : St) (a : A) :
  m s = Ok a s1 -> bind m k s = k a s1.
Proof. unfold bind. now intros ->. Qed.

Lemma removeOldest_victim (c c' : Cache) (e : entry) :
  removeOldest c = (c', Some e) ->
  dirty (value e) = false \/ exists newer, rev (ll c) = e :: newer.
Proof.
  unfold removeOldest, removeElement.
  destruct (rev (ll c)) as [|oldest newer]; [discriminate|].
  destruct (scan newer) as [x|] eqn:Hscan; intros [= <- <-].
  - left. now apply scan_In in Hscan.
  - right. eauto.
Qed.

(** A dirty entry just inserted is at the front of the cache afterwards:
    eviction never takes it. *)
Lemma Add_dirty_resident (c : Cache) (k : Z) (b : list byte) :
  0 <= MaxEntries c ->
  exists rest, ll (fst (Add c k (mkItem b true))) = mkEntry k (mkItem b true) :: rest.
Proof.
  intros Hcap. unfold Add.
  destruct (lookup k (ll c)) as [e0|] eqn:Hl; [simpl; eauto|].
  set (new := mkEntry k (mkItem b true)).
  set (c1 := mkCache (MaxEntries c) (new :: ll c)).
  destruct (negb (MaxEntries c1 =? 0) && (MaxEntries c1 <? len c1)) eqn:Hb; [|simpl; eauto].
  apply andb_true_iff in Hb as [Hnz Hlt].
  apply negb_true_iff, Z.eqb_neq in Hnz. apply Z.ltb_lt in Hlt.
  unfold len in Hlt. simpl in Hnz, Hlt.
  destruct (removeOldest_len c1) as (e & He & _); [discriminate|].
  destruct (removeOldest c1) as [c' o] eqn:Hr. simpl in He. subst o.
  pose proof (removeOldest_evicts_member _ _ _ Hr) as (Hin & Hll & _).
  assert (Hne : key e <> k).
  { destruct (removeOldest_victim _ _ _ Hr) as [Hclean | [newer Hrev]].
    - destruct Hin as [<- | Hin]; [discriminate Hclean|].
      now apply (lookup_None_key k (ll c)).
    - simpl in Hrev. destruct (ll c) as [|x r] eqn:Hc; [simpl in Hlt; lia|].
      apply (lookup_None_key k (x :: r)); [assumption|].
      apply in_rev. destruct (rev (x :: r)) as [|y ys] eqn:Hxr.
      + apply (f_equal (@length entry)) in Hxr. rewrite length_rev in Hxr. discriminate.
      + simpl in Hrev. injection Hrev as -> _. now left. }
  simpl. rewrite Hll. simpl.
  destruct (k =? key e) eqn:Hk; [apply Z.eqb_eq in Hk; congruence | eauto].
Qed.

Lemma cachedBytes_setClean (k k' : Z) (l : list entry) :
  cachedBytes (setClean k l) k' = cachedBytes l k'.
Proof.
  unfold cachedBytes. induction l as [|e r IH]; simpl; [reflexivity|].
  destruct (key e =? k) eqn:Hk; simpl.
  - now destruct (key e =? k').
  - destruct (key e =? k'); [reflexivity | exact IH].
Qed.

Lemma keys_setClean (k : Z) (l : list entry) : map key (setClean k l) = map key l.
Proof.
  induction l as [|e r IH]; simpl; [reflexivity|].
  destruct (key e =? k); simpl; [reflexivity | now rewrite IH].
Qed.

Lemma cachedDirty_setClean_same (k : Z) (l : list entry) :
  cachedBytes l k <> None -> cachedDirty (setClean k l) k = Some false.
Proof.
  unfold cachedBytes, cachedDirty. induction l as [|e r IH]; simpl; [congruence|].
  destruct (key e =? k) eqn:Hk; simpl; rewrite Hk; [reflexivity | exact IH].
Qed.

Lemma cachedDirty_setClean_other (k k' : Z) (l : list entry) :
  cachedDirty l k' = Some false -> cachedDirty (setClean k l) k' = Some false.
Proof.
  unfold cachedDirty. induction l as [|e r IH]; simpl; [congruence|].
  destruct (key e =? k) eqn:Hk; simpl.
  - destruct (key e =? k'); [reflexivity | trivial].
  - destruct (key e =? k'); [trivial | exact IH].
Qed.

Lemma setClean_clean (k : Z) (l : list entry) :
  cachedDirty l k = Some false -> setClean k l = l.
Proof.
  unfold cachedDirty. induction l as [|e r IH]; simpl; [reflexivity|].
  destruct (key e =? k); simpl.
  - intros [= Hd]. destruct e as [ke [be de]]. simpl in *. now subst.
  - intros H. now rewrite IH.
Qed.

Lemma wrote_refl (s : St) : wrote s s.
Proof. exists []. now rewrite app_nil_r. Qed.

Lemma wrote_trans (s1 s2 s3 : St) : wrote s1 s2 -> wrote s2 s3 -> wrote s1 s3.
Proof.
  intros (a & Ha & Hwa) (b & Hb & Hwb). exists (a ++ b).
  rewrite Hb, Ha, app_assoc, forallb_app, Hwa, Hwb. now split.
Qed.

Lemma wrote_WriteAt (h : Handle) (b : list byte) (o : Z) (s : St) :
  exists err s', WriteAt h b o s = Ok err s' /\ wrote s s'.
Proof.
  unfold WriteAt, syscall. destruct (os_WriteAt h b o (world s)) as [err w].
  exists err. eexists. split; [reflexivity|]. eexists. simpl. split; reflexivity.
Qed.

Lemma sameContents_refl (fq : File) : sameContents fq fq.
Proof. unfold sameContents. auto 10. Qed.

Lemma sameContents_setClean (fq fq' : File) (k : Z) :
  sameContents (setQueue fq (mkCache (MaxEntries (queue fq)) (setClean k (ll (queue fq))))) fq' ->
  sameContents fq fq'.
Proof.
  unfold sameContents. simpl. intros (Hb & Hk & H). split; [|split; [|exact H]].
  - intros k'. rewrite Hb. apply cachedBytes_setClean.
  - rewrite Hk. apply keys_setClean.
Qed.

Lemma queueAdd_dirty (fq : File) (k : Z) (b : list byte) (s : St) :
  0 <= MaxEntries (queue fq) ->
  exists fq' s' rest,
    queueAdd fq k (mkItem b true) s = Ok fq' s' /\
    ll (queue fq') = mkEntry k (mkItem b true) :: rest /\
    MaxEntries (queue fq') = MaxEntries (queue fq) /\
    id fq' = id fq /\ size fq' = size fq /\ ops fq' = ops fq /\ file fq' = file fq /\
    wrote s s'.
Proof.
  intros Hcap. unfold queueAdd.
  destruct (Add_dirty_resident (queue fq) k b Hcap) as [rest Hrest].
  pose proof (Add_MaxEntries (queue fq) k (mkItem b true)) as Hm.
  destruct (Add (queue fq) k (mkItem b true)) as [q ev]. simpl in Hrest, Hm.
  destruct ev as [e|]; unfold evicted, OnEvicted.
  - destruct (wrote_WriteAt (file fq) (bytes (value e)) (key e) s) as (err & s1 & Hw & Hs1).
    unfold bind. rewrite Hw. exists (setQueue fq q), s1, rest.
    split; [reflexivity|]. simpl. auto 10.
  - exists (setQueue fq q), s, rest. split; [reflexivity|]. simpl.
    repeat split; auto. apply wrote_refl.
Qed.

(** The loop of [Flush] over keys of the cache ends, keeps every entry and
    its bytes, leaves everything but the dirty flags as it was, and calls
    nothing but [WriteAt]. *)
Lemma flushKeys_runs (ks : list Z) (fq : File) (s : St) :
  (forall k, In k ks -> cachedBytes (ll (queue fq)) k <> None) ->
  exists fq' err s',
    flushKeys ks fq s = Ok (fq', err) s' /\ sameContents fq fq' /\ wrote s s'.
Proof.
  revert fq s. induction ks as [|k ks IH]; intros fq s Hks; simpl.
  - exists fq, None, s. split; [reflexivity|]. split; [apply sameContents_refl | apply wrote_refl].
  - assert (Hk : cachedBytes (ll (queue fq)) k <> None) by (apply Hks; now left).
    unfold peek. unfold cachedBytes in Hk.
    destruct (lookup k (ll (queue fq))) as [e|] eqn:Hl; [|now elim Hk]. simpl.
    set (fq1 := setQueue fq _).
    assert (Hnext : forall s1, wrote s s1 -> exists fq' err s',
      flushKeys ks fq1 s1 = Ok (fq', err) s' /\ sameContents fq fq' /\ wrote s s').
    { intros s1 Hs1. destruct (IH fq1 s1) as (fq' & err & s' & Hrun & Hsame & Hw).
      - intros k' Hk'. subst fq1; simpl. rewrite cachedBytes_setClean. apply Hks. now right.
      - exists fq', err, s'. split; [assumption|]. split.
        + now apply (sameContents_setClean fq fq' k).
        + now apply (wrote_trans s s1 s'). }
    destruct (dirty (value e)); [|apply Hnext, wrote_refl].
    destruct (wrote_WriteAt (file fq) (bytes (value e)) k s) as (err & s1 & Hw & Hs1).
    rewrite (bind_Ok _ _ _ _ _ Hw). destruct err as [err|].
    + exists fq, (Some err), s1. split; [reflexivity|]. split; [apply sameContents_refl | assumption].
    + now apply Hnext.
Qed.

Lemma keys_cached (fq : File) (k : Z) :
  In k (keys (queue fq)) -> cachedBytes (ll (queue fq)) k <> None.
Proof.
  unfold keys, cachedBytes. rewrite in_map_iff. intros (e & <- & He).
  apply in_rev in He. destruct (In_lookup _ _ He) as [e' ->]. discriminate.
Qed.

Lemma Flush_runs (fq : File) (s : St) :
  exists fq' err s', Flush fq s = Ok (fq', err) s' /\ sameContents fq fq' /\ wrote s s'.
Proof. apply flushKeys_runs. intros k. apply keys_cached. Qed.

(** A file opened with a capacity from 1 up to [2^63 - 1] has that capacity
    and that bound. *)
Lemma NewFile_capacity (name : string) (c : Z) (fq : File) (err : option Go.error) (s s' : St) :
  0 < c < 2 ^ 63 ->
  NewFile name c s = Ok (Some fq, err) s' ->
  size fq = c /\ MaxEntries (queue fq) = c /\ ll (queue fq) = [] /\ ops fq = 0.
Proof.
  intros Hc. unfold NewFile, bind, OpenFile, syscall.
  destruct (os_OpenFile name (world s)) as [[h | e] w]; unfold ret; [|discriminate].
  intros [= <- _ _]. simpl. unfold Go.int_of_uint.
  destruct (c <? 2 ^ 63) eqn:Hlt; [auto|]. apply Z.ltb_ge in Hlt. lia.
Qed.

(** [Write] on a file of capacity other than zero returns, and the bytes
    written are cached at the offset. *)
Lemma Write_caches (fq : File) (b : list byte) (o : Z) (s : St) :
  size fq <> 0 -> 0 <= MaxEntries (queue fq) ->
  exists fq' s',
    Write fq b o s = Ok fq' s' /\
    cachedBytes (ll (queue fq')) o = Some b /\
    id fq' = id fq /\ size fq' = size fq /\ file fq' = file fq /\
    MaxEntries (queue fq') = MaxEntries (queue fq) /\
    wrote s s'.
Proof.
  intros Hsize Hcap. unfold Write.
  destruct (queueAdd_dirty (setOps fq (Go.uint_wrap (ops fq + 1))) o b s Hcap)
    as (fq2 & s2 & rest & Hadd & Hll & Hmax & Hid & Hsz & Hops & Hfile & Hw).
  rewrite (bind_Ok _ _ _ _ _ Hadd). simpl in Hmax, Hid, Hsz, Hfile.
  assert (Hb : cachedBytes (ll (queue fq2)) o = Some b).
  { unfold cachedBytes. rewrite Hll. simpl. now rewrite Z.eqb_refl. }
  rewrite Hsz. destruct (size fq =? 0) eqn:Hz; [apply Z.eqb_eq in Hz; contradiction|].
  destruct (ops fq2 mod size fq =? 0).
  - destruct (Flush_runs fq2 s2) as (fq3 & err & s3 & Hf & Hsame & Hw3).
    destruct Hsame as (Hbytes & _ & Hid3 & Hsz3 & _ & Hfile3 & Hmax3).
    rewrite (bind_Ok _ _ _ _ _ Hf). exists fq3, s3. split; [reflexivity|].
    rewrite Hbytes. repeat split; try congruence. now apply (wrote_trans s s2 s3).
  - exists fq2, s2. split; [reflexivity|]. repeat split; congruence.
Qed.

(** A hit whose cached bytes are at least as long as the buffer fills the
    buffer with their leading bytes, without any system call. *)
Lemma Read_hit (fq : File) (data b : list byte) (o : Z) (s : St) :
  cachedBytes (ll (queue fq)) o = Some b -> (length data <= length b)%nat ->
  exists fq', Read fq data o s = Ok (fq', firstn (length data) b, None) s.
Proof.
  unfold cachedBytes, Read, get. intros Hb Hlen.
  destruct (lookup o (ll (queue fq))) as [e|]; [|discriminate].
  injection Hb as <-. apply Nat.leb_le in Hlen. rewrite Hlen. eexists. reflexivity.
Qed.

(** C7.  On a file whose capacity is not zero and whose cache bound is not
    negative (any file [NewFile] opens with a capacity from 1 up to [2^63 - 1]),
    [Write b o] returns, and a [Read] at [o] into a buffer as long as [b]
    that follows at once returns no error with the buffer equal to [b]; the
    read leaves the state of the system as it was, so the bytes come from the
    cache and not from a positional read. *)
Theorem read_after_write (fq : File) (b buf : list byte) (o : Z) (s : St) :
  size fq <> 0 -> 0 <= MaxEntries (queue fq) -> length buf = length b ->
  exists fq1 s1 fq2,
    Write fq b o s = Ok fq1 s1 /\
    Read fq1 buf o s1 = Ok (fq2, b, None) s1.
Proof.
  intros Hsize Hcap Hlen.
  destruct (Write_caches fq b o s Hsize Hcap) as (fq1 & s1 & Hw & Hb & _).
  destruct (Read_hit fq1 buf b o s1 Hb) as [fq2 Hr]; [lia|].
  rewrite Hlen, firstn_all in Hr. eauto.
Qed.

(** C10.  A [Read] that finds at the offset an entry shorter than the buffer
    returns no error, hands the buffer back unchanged and leaves the state of
    the system as it was (no positional read); the entry moves to the front
    of the cache. *)
Theorem Read_hit_short (fq : File) (data : list byte) (o : Z) (it : item) (s : St) :
  peek (queue fq) o = Some it -> (length (bytes it) < length data)%nat ->
  Read fq data o s = Ok (setQueue fq (fst (get (queue fq) o)), data, None) s.
Proof.
  unfold peek, Read, get. intros Hp Hlen.
  destruct (lookup o (ll (queue fq))) as [e|]; [|discriminate].
  injection Hp as <-. simpl.
  apply Nat.leb_gt in Hlen. now rewrite Hlen.
Qed.

(** [Read] reports no error, whatever the positional read answered. *)
Lemma Read_returns_nil (fq : File) (data : list byte) (o : Z) (s : St) :
  exists fq' d s', Read fq data o s = Ok (fq', d, None) s'.
Proof.
  unfold Read, get. destruct (lookup o (ll (queue fq))) as [e|].
  - do 3 eexists. reflexivity.
  - unfold bind, ReadAt, syscall.
    destruct (os_ReadAt (file fq) data o (world s)) as [[d [err|]] w].
    + unfold queueAdd. destruct (Add (queue fq) o (mkItem d false)) as [q [e|]];
        unfold evicted, OnEvicted, bind, WriteAt, syscall, ret.
      * destruct (os_WriteAt _ _ _ _). do 3 eexists. reflexivity.
      * do 3 eexists. reflexivity.
    + do 3 eexists. reflexivity.
Qed.

(** A miss whose positional read succeeds returns without touching the
    cache. *)
Lemma Read_miss_success_not_cached
  (fq : File) (data d : list byte) (o : Z) (s : St) (w : World) :
  lookup o (ll (queue fq)) = None ->
  os_ReadAt (file fq) data o (world s) = ((d, None), w) ->
  Read fq data o s =
  Ok (fq, d, None) (mkSt w (trace s ++ [EvReadAt (file fq) (length data) o])).
Proof.
  intros Hl Hr. unfold Read, get. rewrite Hl.
  unfold bind, ReadAt, syscall. now rewrite Hr.
Qed.

(** A miss whose positional read fails inserts the buffer as a clean entry
    and goes on to report no error. *)
Lemma Read_miss_failure_cached
  (fq : File) (data d : list byte) (o : Z) (e : Go.error) (s : St) (w : World) :
  lookup o (ll (queue fq)) = None ->
  os_ReadAt (file fq) data o (world s) = ((d, Some e), w) ->
  Read fq data o s =
  bind (queueAdd fq o (mkItem d false)) (fun fq' => ret (fq', d, None))
       (mkSt w (trace s ++ [EvReadAt (file fq) (length data) o])).
Proof.
  intros Hl Hr. unfold Read, get. rewrite Hl.
  unfold bind at 1. unfold ReadAt, syscall. now rewrite Hr.
Qed.

Lemma flushKeys_keeps_clean (ks : list Z) (k : Z) (fq fq' : File)
  (err : option Go.error) (s s' : St) :
  flushKeys ks fq s = Ok (fq', err) s' ->
  cachedDirty (ll (queue fq)) k = Some false ->
  cachedDirty (ll (queue fq')) k = Some false.
Proof.
  revert fq s. induction ks as [|k0 ks IH]; intros fq s; simpl.
  - unfold ret. now intros [= <- _ _].
  - destruct (peek (queue fq) k0) as [it|]; [|discriminate].
    set (fq1 := setQueue fq _).
    assert (Hstep : forall s1, flushKeys ks fq1 s1 = Ok (fq', err) s' ->
                    cachedDirty (ll (queue fq)) k = Some false ->
                    cachedDirty (ll (queue fq')) k = Some false).
    { intros s1 Hrun Hc. apply (IH fq1 s1 Hrun). subst fq1; simpl.
      now apply cachedDirty_setClean_other. }
    destruct (dirty it); [|apply Hstep].
    unfold bind, WriteAt, syscall.
    destruct (os_WriteAt (file fq) (bytes it) k0 (world s)) as [[e|] w].
    + unfold ret. now intros [= <- _ _].
    + apply Hstep.
Qed.

(** After a loop that met no write error every key visited is clean. *)
Lemma flushKeys_success_clean (ks : list Z) (fq fq' : File) (s s' : St) :
  flushKeys ks fq s = Ok (fq', None) s' ->
  forall k, In k ks -> cachedDirty (ll (queue fq')) k = Some false.
Proof.
  revert fq s. induction ks as [|k0 ks IH]; intros fq s; simpl; [tauto|].
  unfold peek. destruct (lookup k0 (ll (queue fq))) as [e|] eqn:Hl; [|discriminate]. simpl.
  set (fq1 := setQueue fq _).
  assert (Hstep : forall s1, flushKeys ks fq1 s1 = Ok (fq', None) s' ->
                  forall k, k0 = k \/ In k ks -> cachedDirty (ll (queue fq')) k = Some false).
  { intros s1 Hrun k [<- | Hk]; [|now apply (IH fq1 s1)].
    apply (flushKeys_keeps_clean ks k0 fq1 fq' None s1 s' Hrun).
    subst fq1; simpl. apply cachedDirty_setClean_same.
    unfold cachedBytes. now rewrite Hl. }
  destruct (dirty (value e)); [|apply Hstep].
  unfold bind, WriteAt, syscall.
  destruct (os_WriteAt (file fq) (bytes (value e)) k0 (world s)) as [[err|] w].
  - discriminate.
  - apply Hstep.
Qed.

(** Over clean keys the loop makes no system call and changes nothing. *)
Lemma flushKeys_clean_noop (ks : list Z) (fq : File) (s : St) :
  (forall k, In k ks -> cachedDirty (ll (queue fq)) k = Some false) ->
  flushKeys ks fq s = Ok (fq, None) s.
Proof.
  induction ks as [|k0 ks IH]; intros Hclean; simpl; [reflexivity|].
  pose proof (Hclean k0 (or_introl eq_refl)) as Hk0.
  rewrite (setClean_clean _ _ Hk0).
  unfold cachedDirty in Hk0. unfold peek.
  destruct (lookup k0 (ll (queue fq))) as [e|]; [|discriminate].
  injection Hk0 as Hd. simpl. rewrite Hd.
  replace (setQueue fq (mkCache (MaxEntries (queue fq)) (ll (queue fq)))) with fq
    by (destruct fq as [i f [m l] sz n]; reflexivity).
  apply IH. intros k Hk. apply Hclean. now right.
Qed.

(** C8, as the code has it.  When a [Flush] reports no error, a second
    [Flush] right after it makes no system call at all, so no positional
    write, and changes nothing: the first one left every entry resident and
    clean. *)
Theorem flush_twice (fq fq1 : File) (s s1 : St) :
  Flush fq s = Ok (fq1, None) s1 ->
  Flush fq1 s1 = Ok (fq1, None) s1 /\
  keys (queue fq1) = keys (queue fq) /\
  (forall k it, peek (queue fq1) k = Some it -> dirty it = false).
Proof.
  intros Hf.
  destruct (Flush_runs fq s) as (fq' & err & s' & Hrun & (_ & Hkeys & _) & _).
  rewrite Hf in Hrun. injection Hrun as <- _ _.
  assert (Hk : keys (queue fq1) = keys (queue fq)).
  { unfold keys. now rewrite !map_rev, Hkeys. }
  assert (Hclean : forall k, In k (keys (queue fq1)) ->
                             cachedDirty (ll (queue fq1)) k = Some false).
  { rewrite Hk. now apply (flushKeys_success_clean _ fq fq1 s s1). }
  split; [now apply flushKeys_clean_noop|]. split; [assumption|].
  intros k it Hp. unfold peek in Hp.
  destruct (lookup k (ll (queue fq1))) as [e|] eqn:Hl; [|discriminate].
  injection Hp as <-. destruct (lookup_In _ _ _ Hl) as [Hin Hkey].
  assert (Hkk : In k (keys (queue fq1))).
  { unfold keys. rewrite <- Hkey. apply in_map. now apply -> in_rev. }
  specialize (Hclean _ Hkk). unfold cachedDirty in Hclean.
  rewrite Hl in Hclean. now injection Hclean.
Qed.

End FileFacts.

(** ** The registry *)

Section StorageFacts.
Context {E : Env}.
Local Open Scope go_scope.

Lemma evictedAll_trace (h : Handle) (es : list smartfile.entry) (s : St) :
  exists s', smartfile.evictedAll h es s = Ok tt s' /\
             trace s' = trace s ++ map (writeBack h) es.
Proof.
  revert s. induction es as [|e r IH]; intros s; simpl.
  - exists s. split; [reflexivity | now rewrite app_nil_r].
  - unfold smartfile.OnEvicted, bind, WriteAt, syscall, ret.
    destruct (os_WriteAt h _ _ (world s)) as [err w].
    destruct (IH (mkSt w (trace s ++ [writeBack h e]))) as (s' & Hrun & Htr).
    exists s'. split; [exact Hrun|]. rewrite Htr. simpl. now rewrite <- app_assoc.
Qed.

(** [clear] empties the cache and hands over the entries it held, in some
    order. *)
Lemma clear_runs (c : smartfile.Cache) (s : St) :
  exists es w,
    smartfile.clear c s = Ok (smartfile.mkCache (smartfile.MaxEntries c) [], es) (mkSt w (trace s)) /\
    Permutation es (smartfile.ll c).
Proof.
  unfold smartfile.clear, bind, MapRange, ret.
  pose proof (go_maprange_perm smartfile.entry (smartfile.ll c) (world s)) as Hperm.
  destruct (go_maprange smartfile.entry (smartfile.ll c) (world s)) as [es w].
  exists es, w. split; [reflexivity | exact Hperm].
Qed.

(** [Purge]: close the handle, then hand every entry to the callback, in the
    order of the range over the map. *)
Lemma Purge_trace (fq : smartfile.File) (s : St) :
  exists s' evs,
    smartfile.Purge fq s = Ok (purged fq) s' /\
    trace s' = trace s ++ EvClose (smartfile.file fq) :: evs /\
    Permutation evs (map (writeBack (smartfile.file fq)) (smartfile.ll (smartfile.queue fq))).
Proof.
  unfold smartfile.Purge. unfold bind at 1. unfold Close, syscall.
  destruct (os_Close (smartfile.file fq) (world s)) as [err w].
  destruct (clear_runs (smartfile.queue fq) (mkSt w (trace s ++ [EvClose (smartfile.file fq)])))
    as (es & w1 & Hclear & Hperm).
  unfold bind at 1. rewrite Hclear.
  destruct (evictedAll_trace (smartfile.file fq) es
              (mkSt w1 (trace s ++ [EvClose (smartfile.file fq)]))) as (s' & Hrun & Htr).
  unfold bind. simpl trace in *. rewrite Hrun.
  exists s', (map (writeBack (smartfile.file fq)) es). split; [reflexivity|]. split.
  - rewrite Htr. simpl. now rewrite <- app_assoc.
  - now apply Permutation_map.
Qed.

Lemma find_update_front (ID : string) (f f' : smartfile.File)
  (l : list (string * smartfile.File)) :
  storage.find ID (storage.update ID f' ((ID, f) :: l)) = Some f'.
Proof. simpl. rewrite String.eqb_refl. simpl. now rewrite String.eqb_refl. Qed.

(** C4, as the code has it.  For an identifier whose file is open in the
    registry, [DeleteData] closes the handle, hands every cached entry to the
    eviction callback (a positional write each, on the handle just closed, in
    the order of a range over a map, which is not fixed; [Flush] is not run),
    removes the backing file, and returns with the registry still holding the
    identifier, now bound to the purged file. *)
Theorem DeleteData_open (m : storage.ManagerStruct) (ID : string) (fq : smartfile.File) (s : St) :
  storage.find ID (storage.files (storage.cache m)) = Some fq ->
  exists m' err s' evs,
    storage.DeleteData m ID s = Ok (m', err) s' /\
    trace s' = trace s
               ++ EvClose (smartfile.file fq) :: evs
               ++ [EvRemove (filepath_Join dataPath ID)] /\
    Permutation evs (map (writeBack (smartfile.file fq)) (smartfile.ll (smartfile.queue fq))) /\
    storage.find ID (storage.files (storage.cache m')) = Some (purged fq).
Proof.
  intros Hfind. unfold storage.DeleteData, storage.Get. rewrite Hfind.
  destruct (Purge_trace fq s) as (s1 & evs & Hp & Htr & Hperm).
  unfold bind. rewrite Hp. unfold ret, Remove, syscall.
  destruct (os_Remove (filepath_Join dataPath ID) (world s1)) as [err w].
  eexists. exists err. eexists. exists evs. split; [reflexivity|]. split; [|split].
  - simpl. rewrite Htr. now rewrite <- app_assoc.
  - exact Hperm.
  - unfold storage.mutated. simpl storage.files. apply find_update_front.
Qed.

(** When the file is not registered and cannot be opened, [SaveData] calls
    [Write] on the nil pointer and panics: the error is not returned. *)
Lemma SaveData_open_failure
  (m : storage.ManagerStruct) (ID : string) (data : list byte) (o : Z)
  (e : Go.error) (s : St) (w : World) :
  storage.find ID (storage.files (storage.cache m)) = None ->
  os_OpenFile (filepath_Join dataPath ID) (world s) = (inr e, w) ->
  storage.SaveData m ID data o s =
  Panic "invalid memory address or nil pointer dereference"
        (mkSt w (trace s ++ [EvOpenFile (filepath_Join dataPath ID)])).
Proof.
  intros Hfind Hopen.
  unfold storage.SaveData, storage.getFileFromCache, storage.Get. rewrite Hfind.
  unfold smartfile.NewFile, bind, OpenFile, syscall. now rewrite Hopen.
Qed.

(** The sibling [LoadData] tests the error first and returns it. *)
Lemma LoadData_open_failure
  (m : storage.ManagerStruct) (ID : string) (o n : Z)
  (e : Go.error) (s : St) (w : World) :
  storage.find ID (storage.files (storage.cache m)) = None ->
  os_OpenFile (filepath_Join dataPath ID) (world s) = (inr e, w) ->
  storage.LoadData m ID o n s =
  Ok (m, None, Some e) (mkSt w (trace s ++ [EvOpenFile (filepath_Join dataPath ID)])).
Proof.
  intros Hfind Hopen.
  unfold storage.LoadData, storage.getFileFromCache, storage.Get. rewrite Hfind.
  unfold smartfile.NewFile, bind, OpenFile, syscall. rewrite Hopen. simpl.
  now destruct m as [[bd fs]].
Qed.

(** With the file registered, [SaveData] returns no error, has only written,
    and the registered file caches the bytes at the offset. *)
Lemma SaveData_resident
  (m : storage.ManagerStruct) (ID : string) (fq : smartfile.File)
  (data : list byte) (o : Z) (s : St) :
  storage.find ID (storage.files (storage.cache m)) = Some fq ->
  smartfile.size fq <> 0 -> 0 <= smartfile.MaxEntries (smartfile.queue fq) ->
  exists m' fq' s',
    storage.SaveData m ID data o s = Ok (m', None) s' /\
    storage.find ID (storage.files (storage.cache m')) = Some fq' /\
    cachedBytes (smartfile.ll (smartfile.queue fq')) o = Some data /\
    wrote s s'.
Proof.
  intros Hfind Hsize Hcap.
  unfold storage.SaveData, storage.getFileFromCache, storage.Get. rewrite Hfind.
  destruct (Write_caches fq data o s Hsize Hcap) as (fq' & s' & Hw & Hb & _ & _ & _ & _ & Hwr).
  unfold bind, ret. rewrite Hw. do 3 eexists. split; [reflexivity|].
  split; [|split; [exact Hb | exact Hwr]].
  unfold storage.mutated. simpl storage.files. apply find_update_front.
Qed.

End StorageFacts.

(** ** The proxy *)

Section ProxyFacts.
Context {E : Env} {K : sketches.Collab}.
Import sketches.
Local Open Scope go_scope.

Lemma mutate_unfold (g : Globals) (sp : SketchProxy) (op : Mutation) :
  mutate g sp op =
  (' (g', sp2) <- save g (touched sp op) false ;; ret (g', sp2, answer sp op)).
Proof.
  destruct op as [values | values]; simpl; unfold Add, Remove; simpl.
  - now destruct (AddMultiple (sketch sp) values).
  - now destruct (RemoveMultiple (sketch sp) values).
Qed.

(** Whenever a mutation returns, it returns what the sketch answered. *)
Lemma mutate_result (g g' : Globals) (sp sp' : SketchProxy) (op : Mutation)
  (r : bool * option Go.error) (s s' : St) :
  mutate g sp op s = Ok (g', sp', r) s' -> r = answer sp op.
Proof.
  rewrite mutate_unfold. unfold bind.
  destruct (save g (touched sp op) false s) as [[g1 sp1] s1 | msg s1]; [|discriminate].
  unfold ret. now intros [= _ _ <- _].
Qed.

Lemma ID_touched (sp : SketchProxy) (op : Mutation) :
  ID (info (touched sp op)) = ID (info sp).
Proof. now destruct op. Qed.

Lemma ops_touched (sp : SketchProxy) (op : Mutation) :
  0 <= ops sp -> ops sp + 1 < 2 ^ 64 ->
  ops (touched sp op) = ops sp + 1 /\ dirty (touched sp op) = true.
Proof.
  intros H0 H1. destruct op; simpl; unfold Go.uint_wrap;
    (split; [apply Z.mod_small; lia | reflexivity]).
Qed.

(** A dirty proxy whose counter is not a multiple of the threshold is not
    saved. *)
Lemma save_not_due (g : Globals) (sp : SketchProxy) (s : St) :
  SaveThresholdOps g <> 0 -> ops sp mod SaveThresholdOps g <> 0 ->
  save g sp false s = Ok (g, sp) s.
Proof.
  intros HT Hmod. unfold save. destruct (dirty sp); [|reflexivity]. simpl.
  apply Z.eqb_neq in HT, Hmod. now rewrite HT, Hmod.
Qed.

(** A dirty proxy whose file is registered is saved when forced or when its
    counter is a multiple of the threshold. *)
Lemma save_due (g : Globals) (sp : SketchProxy) (force : bool) (fq : smartfile.File) (s : St) :
  dirty sp = true -> SaveThresholdOps g <> 0 ->
  ops sp mod SaveThresholdOps g = 0 \/ force = true ->
  storage.find (ID (info sp)) (storage.files (storage.cache (manager g))) = Some fq ->
  smartfile.size fq <> 0 -> 0 <= smartfile.MaxEntries (smartfile.queue fq) ->
  exists g' sp' s', save g sp force s = Ok (g', sp') s' /\ saved g' sp sp' s s'.
Proof.
  intros Hd HT Hdue Hfind Hsize Hcap. unfold save. rewrite Hd. simpl.
  apply Z.eqb_neq in HT. rewrite HT.
  replace ((ops sp mod SaveThresholdOps g =? 0) || force) with true
    by (destruct Hdue as [-> | ->]; [reflexivity | now rewrite orb_true_r]).
  destruct (Marshal (sketch sp)) as [serialized merr] eqn:Hm. simpl.
  assert (Hfind1 : storage.find (ID (info sp))
                     (storage.files (storage.cache (manager (logErr g merr)))) = Some fq)
    by (destruct merr; exact Hfind).
  destruct (SaveData_resident (manager (logErr g merr)) (ID (info sp)) fq serialized 0 s
              Hfind1 Hsize Hcap) as (m' & fq' & s1 & Hsave & Hfind' & Hb & evs & Htr & Hevs).
  unfold bind. rewrite Hsave. unfold SaveInfo, syscall, ret.
  destruct (manager_SaveInfo (ID (info sp)) (json_Marshal (info sp)) (world s1)) as [ierr w].
  do 3 eexists. split; [reflexivity|]. unfold saved. split; [reflexivity|]. split.
  - exists evs. simpl. split; [now rewrite Htr, <- app_assoc | assumption].
  - exists fq'. rewrite Hm. split; [|assumption]. destruct ierr; simpl; exact Hfind'.
Qed.

(** With the file of the proxy registered and a threshold other than zero, a
    mutation always returns, and returns the answer of the sketch. *)
Lemma mutate_returns_answer
  (g : Globals) (sp : SketchProxy) (op : Mutation) (fq : smartfile.File) (s : St) :
  SaveThresholdOps g <> 0 ->
  storage.find (ID (info sp)) (storage.files (storage.cache (manager g))) = Some fq ->
  smartfile.size fq <> 0 -> 0 <= smartfile.MaxEntries (smartfile.queue fq) ->
  exists g' sp' s', mutate g sp op s = Ok (g', sp', answer sp op) s'.
Proof.
  intros HT Hfind Hsize Hcap. rewrite mutate_unfold. unfold bind.
  assert (Hd : dirty (touched sp op) = true) by now destruct op.
  destruct (Z.eq_dec (ops (touched sp op) mod SaveThresholdOps g) 0) as [Hz | Hnz].
  - destruct (save_due g (touched sp op) false fq s Hd HT (or_introl Hz))
      as (g' & sp' & s' & Hsave & _); [now rewrite ID_touched | assumption | assumption |].
    rewrite Hsave. now exists g', sp', s'.
  - rewrite (save_not_due g (touched sp op) s HT Hnz). now exists g, (touched sp op), s.
Qed.

(** A run of mutations during which the counter meets no multiple of the
    threshold saves nothing: only the proxy changes. *)
Lemma mutateAll_not_due (g : Globals) (l : list Mutation) (sp : SketchProxy) (s : St) :
  SaveThresholdOps g <> 0 ->
  0 <= ops sp -> ops sp + Z.of_nat (length l) < 2 ^ 64 ->
  (forall i, 0 < i <= Z.of_nat (length l) -> (ops sp + i) mod SaveThresholdOps g <> 0) ->
  exists sp',
    mutateAll g sp l s = Ok (g, sp') s /\
    ops sp' = ops sp + Z.of_nat (length l) /\
    ID (info sp') = ID (info sp).
Proof.
  intros HT. revert sp. induction l as [|op r IH]; intros sp H0 Hlt Hmod.
  - exists sp. simpl. split; [reflexivity|]. split; [lia | reflexivity].
  - cbn [length] in Hlt, Hmod. rewrite Nat2Z.inj_succ in Hlt, Hmod.
    destruct (ops_touched sp op H0) as [Hops Hd]; [lia|].
    assert (Hstep : mutate g sp op s = Ok (g, touched sp op, answer sp op) s).
    { rewrite mutate_unfold. unfold bind. rewrite save_not_due; [reflexivity | assumption |].
      rewrite Hops. apply Hmod. lia. }
    destruct (IH (touched sp op)) as (sp' & Hrun & Hops' & Hid); [lia | lia | |].
    + intros i Hi. rewrite Hops. replace (ops sp + 1 + i) with (ops sp + (i + 1)) by lia.
      apply Hmod. lia.
    + exists sp'. cbn [mutateAll]. unfold bind at 1. rewrite Hstep.
      split; [exact Hrun|]. cbn [length]. rewrite Nat2Z.inj_succ.
      split; [lia | now rewrite Hid, ID_touched].
Qed.

(** C3, as the code has it.  Take a proxy whose counter is a multiple of the
    threshold [T] (a proxy just loaded has counter 0) and whose file is
    registered.  Of [T] mutations in a row, with nothing in between, the first
    [T - 1] save nothing (the registry, the log and the system are untouched)
    and the [T]-th saves before it returns, which moves the counter by
    [T + 1] in all, the save counting as one.  And [save] on a dirty proxy
    goes through when it is forced or the counter is a multiple of [T], and
    does nothing otherwise. *)
Theorem threshold_save
  (g : Globals) (sp : SketchProxy) (pre : list Mutation) (last : Mutation)
  (fq : smartfile.File) (s : St) :
  0 < SaveThresholdOps g ->
  0 <= ops sp -> ops sp + SaveThresholdOps g + 1 < 2 ^ 64 ->
  ops sp mod SaveThresholdOps g = 0 ->
  Z.of_nat (length pre) = SaveThresholdOps g - 1 ->
  storage.find (ID (info sp)) (storage.files (storage.cache (manager g))) = Some fq ->
  smartfile.size fq <> 0 -> 0 <= smartfile.MaxEntries (smartfile.queue fq) ->
  (exists sp1 g2 sp2 s2,
     mutateAll g sp pre s = Ok (g, sp1) s /\
     mutate g sp1 last s = Ok (g2, sp2, answer sp1 last) s2 /\
     saved g2 (touched sp1 last) sp2 s s2 /\
     ops sp2 = ops sp + SaveThresholdOps g + 1) /\
  (forall (p : SketchProxy) (force : bool),
     ID (info p) = ID (info sp) -> dirty p = true ->
     (ops p mod SaveThresholdOps g = 0 \/ force = true ->
      exists g' p' s', save g p force s = Ok (g', p') s' /\ saved g' p p' s s') /\
     (ops p mod SaveThresholdOps g <> 0 -> save g p false s = Ok (g, p) s)).
Proof.
  intros HT H0 Hlt Hmod Hlen Hfind Hsize Hcap.
  assert (Hne : SaveThresholdOps g <> 0) by lia.
  split.
  - destruct (mutateAll_not_due g pre sp s Hne H0) as (sp1 & Hrun & Hops1 & Hid1); [lia | |].
    { intros i Hi. rewrite Z.add_mod, Hmod by assumption. simpl.
      rewrite Z.mod_mod by assumption. rewrite Z.mod_small; lia. }
    destruct (ops_touched sp1 last) as [Hops2 Hd2]; [lia | lia |].
    assert (Hdue : ops (touched sp1 last) mod SaveThresholdOps g = 0).
    { rewrite Hops2, Hops1, Hlen.
      replace (ops sp + (SaveThresholdOps g - 1) + 1) with (ops sp + SaveThresholdOps g) by lia.
      rewrite Z.add_mod, Hmod, Z.mod_same by assumption. simpl. now apply Z.mod_0_l. }
    destruct (save_due g (touched sp1 last) false fq s Hd2 Hne (or_introl Hdue))
      as (g2 & sp2 & s2 & Hsave & Hsaved);
      [now rewrite ID_touched, Hid1 | assumption | assumption |].
    exists sp1, g2, sp2, s2.
    split; [exact Hrun|].
    split; [rewrite mutate_unfold; unfold bind; rewrite Hsave; reflexivity|].
    split; [exact Hsaved|].
    destruct Hsaved as (-> & _). cbn [ops]. rewrite Hops2, Hops1, Hlen.
    unfold Go.uint_wrap. rewrite Z.mod_small; lia.
  - intros p force Hid Hd. split.
    + intros Hdue. apply (save_due g p force fq s Hd Hne Hdue); [now rewrite Hid | assumption | assumption].
    + intros Hnz. now apply save_not_due.
Qed.

End ProxyFacts.

(** ** More on the cache: uniqueness of keys, the victim, lookups *)

Section CacheMore.
Import smartfile.

Lemma scan_None_dirty (l : list entry) : scan l = None -> Forall isDirty l.
Proof.
  induction l as [|x r IH]; simpl; [constructor|].
  destruct (dirty (value x)) eqn:Hd; simpl; [|discriminate].
  intros H. constructor; [assumption | now apply IH].
Qed.

Lemma scan_app_dirty (l r : list entry) : Forall isDirty l -> scan (l ++ r) = scan r.
Proof.
  induction 1 as [|x l Hx _ IH]; simpl; [reflexivity|].
  unfold isDirty in Hx. now rewrite Hx.
Qed.

Lemma lookup_unlink_other (k j : Z) (l : list entry) :
  k <> j -> lookup k (unlink j l) = lookup k l.
Proof.
  intros Hne. induction l as [|x r IH]; simpl; [reflexivity|].
  destruct (key x =? j) eqn:Hj; simpl.
  - apply Z.eqb_eq in Hj. destruct (key x =? k) eqn:Hk; [|reflexivity].
    apply Z.eqb_eq in Hk. congruence.
  - now rewrite IH.
Qed.

Lemma lookup_unlink_same (k : Z) (l : list entry) :
  NoDup (map key l) -> lookup k (unlink k l) = None.
Proof.
  induction l as [|x r IH]; simpl; intros Hnd; [reflexivity|].
  inversion Hnd as [|? ? Hnot Hr]; subst.
  destruct (key x =? k) eqn:Hk; simpl.
  - apply Z.eqb_eq in Hk. destruct (lookup k r) as [e|] eqn:Hl; [|reflexivity].
    apply lookup_In in Hl as [Hin Hke]. elim Hnot. rewrite Hk, <- Hke. now apply in_map.
  - rewrite Hk. now apply IH.
Qed.

Lemma lookup_NoDup (e : entry) (l : list entry) :
  NoDup (map key l) -> In e l -> lookup (key e) l = Some e.
Proof.
  induction l as [|x r IH]; simpl; intros Hnd Hin; [contradiction|].
  inversion Hnd as [|? ? Hnot Hr]; subst.
  destruct Hin as [-> | Hin]; [now rewrite Z.eqb_refl|].
  destruct (key x =? key e) eqn:Hk; [|now apply IH].
  apply Z.eqb_eq in Hk. elim Hnot. rewrite Hk. now apply in_map.
Qed.

Lemma removeOldest_cases (c : Cache) :
  removeOldest c = (c, None) \/
  exists e, In e (ll c) /\
            removeOldest c = (mkCache (MaxEntries c) (unlink (key e) (ll c)), Some e).
Proof.
  destruct (removeOldest c) as [c' [e|]] eqn:Hr.
  - right. exists e. pose proof (removeOldest_evicts_member c c' e Hr) as (Hin & Hll & Hm).
    split; [assumption|]. destruct c' as [m l]. simpl in *. now subst.
  - left. unfold removeOldest, removeElement in Hr.
    destruct (rev (ll c)); [now rewrite <- Hr|]. destruct (scan l); discriminate.
Qed.

(** X1.  Every method of the cache keeps the keys of the list distinct, which
    is what keeps the list and the map of the source in step. *)
Theorem keys_stay_unique (c : Cache) (k : Z) (v : item) :
  NoDup (map key (ll c)) ->
  NoDup (map key (ll (fst (Add c k v)))) /\
  NoDup (map key (ll (fst (get c k)))) /\
  NoDup (map key (ll (fst (remove c k)))) /\
  NoDup (map key (ll (fst (removeOldest c)))).
Proof.
  intros Hnd.
  assert (Hfront : forall e, lookup k (ll c) = Some e ->
                             NoDup (map key (e :: unlink k (ll c)))).
  { intros e He. destruct (unlink_keys k (ll c) Hnd) as [Hu Hin].
    apply lookup_In in He as [_ Hk]. simpl. rewrite Hk.
    constructor; [|assumption]. intros H. apply Hin in H. tauto. }
  assert (Hold : forall c0, NoDup (map key (ll c0)) ->
                            NoDup (map key (ll (fst (removeOldest c0))))).
  { intros c0 H0. destruct (removeOldest_cases c0) as [-> | (e & _ & ->)]; [assumption|].
    simpl. now apply unlink_keys. }
  repeat split.
  - unfold Add. destruct (lookup k (ll c)) as [e|] eqn:Hl.
    + simpl. destruct (unlink_keys k (ll c) Hnd) as [Hu Hin].
      constructor; [|assumption]. intros H. apply Hin in H. tauto.
    + set (c1 := mkCache (MaxEntries c) (mkEntry k v :: ll c)).
      assert (H1 : NoDup (map key (ll c1))).
      { simpl. constructor; [now apply lookup_None_keys | assumption]. }
      destruct (negb (MaxEntries c1 =? 0) && (MaxEntries c1 <? len c1)); [now apply Hold | exact H1].
  - unfold get. destruct (lookup k (ll c)) as [e|] eqn:Hl; [now apply Hfront | assumption].
  - unfold remove, removeElement. destruct (lookup k (ll c)) as [e|]; [|assumption].
    simpl. now apply unlink_keys.
  - now apply Hold.
Qed.

(** X2.  The victim of [removeOldest].  Going from the entry next to the back
    towards the front, the first clean entry is evicted; the entry at the
    back, clean or dirty, is evicted only when every other entry is dirty. *)
Theorem removeOldest_policy (c : Cache) (front run : list entry) (e oldest : entry) :
  Forall isDirty run ->
  (ll c = front ++ e :: run ++ [oldest] -> dirty (value e) = false ->
   removeOldest c = removeElement c e) /\
  (ll c = run ++ [oldest] -> removeOldest c = removeElement c oldest).
Proof.
  intros Hrun. assert (Hrev : Forall isDirty (rev run)) by now apply Forall_rev.
  split.
  - intros Hll Hclean. unfold removeOldest. rewrite Hll.
    replace (front ++ e :: run ++ [oldest]) with ((front ++ e :: run) ++ [oldest])
      by (rewrite <- app_assoc; reflexivity).
    rewrite rev_app_distr. simpl. rewrite rev_app_distr. simpl.
    rewrite <- app_assoc. rewrite (scan_app_dirty _ _ Hrev). simpl. now rewrite Hclean.
  - intros Hll. unfold removeOldest. rewrite Hll, rev_app_distr. simpl.
    replace (rev run) with (rev run ++ []) by apply app_nil_r.
    now rewrite (scan_app_dirty _ _ Hrev).
Qed.

(** X3.  A dirty entry is evicted by [Add] only when every entry, the one just
    inserted included, is dirty, and then it is the entry at the back. *)
Theorem dirty_eviction_means_all_dirty (c c' : Cache) (k : Z) (v : item) (e : entry) :
  Add c k v = (c', Some e) -> dirty (value e) = true ->
  Forall isDirty (mkEntry k v :: ll c) /\
  exists front, mkEntry k v :: ll c = front ++ [e].
Proof.
  unfold Add. destruct (lookup k (ll c)); [discriminate|].
  set (c1 := mkCache (MaxEntries c) (mkEntry k v :: ll c)).
  destruct (negb (MaxEntries c1 =? 0) && (MaxEntries c1 <? len c1)); [|discriminate].
  unfold removeOldest, removeElement.
  destruct (rev (ll c1)) as [|oldest newer] eqn:Hrev; [discriminate|].
  assert (Hll : ll c1 = rev newer ++ [oldest]).
  { rewrite <- (rev_involutive (ll c1)), Hrev. reflexivity. }
  destruct (scan newer) as [x|] eqn:Hscan; intros [= _ <-] Hd.
  - apply scan_In in Hscan as [_ Hclean]. congruence.
  - apply scan_None_dirty in Hscan. simpl in Hll. rewrite Hll. split; [|eauto].
    apply Forall_app. split; [now apply Forall_rev | now constructor].
Qed.

(** X4.  A dirty item just inserted is found under its key (no eviction
    reaches it), and every other key reads as before unless it is the key of
    the very entry [Add] evicted. *)
Theorem Add_dirty_lookup (c : Cache) (k : Z) (b : list byte) :
  0 <= MaxEntries c ->
  peek (fst (Add c k (mkItem b true))) k = Some (mkItem b true) /\
  forall k', k' <> k ->
    peek (fst (Add c k (mkItem b true))) k' = peek c k' \/
    exists e, snd (Add c k (mkItem b true)) = Some e /\ key e = k'.
Proof.
  intros Hcap. split.
  - destruct (Add_dirty_resident c k b Hcap) as [rest Hrest].
    unfold peek. rewrite Hrest. simpl. now rewrite Z.eqb_refl.
  - intros k' Hne. unfold peek, Add.
    destruct (lookup k (ll c)) as [e0|] eqn:Hl.
    + left. simpl. destruct (k =? k') eqn:Hk; [apply Z.eqb_eq in Hk; congruence|].
      now rewrite lookup_unlink_other.
    + set (c1 := mkCache (MaxEntries c) (mkEntry k (mkItem b true) :: ll c)).
      assert (H1 : lookup k' (ll c1) = lookup k' (ll c)).
      { simpl. destruct (k =? k') eqn:Hk; [apply Z.eqb_eq in Hk; congruence | reflexivity]. }
      destruct (negb (MaxEntries c1 =? 0) && (MaxEntries c1 <? len c1)); [|left; now rewrite <- H1].
      destruct (removeOldest_cases c1) as [-> | (e & _ & ->)]; [left; now rewrite <- H1|].
      destruct (Z.eq_dec (key e) k') as [Heq | Hneq];
        [right; exists e; split; [reflexivity | assumption]|].
      left. cbn [fst ll]. rewrite lookup_unlink_other by congruence. now rewrite H1.
Qed.

(** X5.  A clean item inserted under a new key into a cache at its bound
    whose entries are all dirty is itself the victim: it goes to the callback
    at once and the cache is left as it was. *)
Theorem Add_clean_into_dirty_cache (c : Cache) (k : Z) (b : list byte) :
  MaxEntries c <> 0 -> MaxEntries c <= len c ->
  Forall isDirty (ll c) -> lookup k (ll c) = None ->
  Add c k (mkItem b false) = (c, Some (mkEntry k (mkItem b false))).
Proof.
  intros Hnz Hfull Hdirty Hl. unfold Add. rewrite Hl.
  set (new := mkEntry k (mkItem b false)).
  set (c1 := mkCache (MaxEntries c) (new :: ll c)).
  replace (negb (MaxEntries c1 =? 0) && (MaxEntries c1 <? len c1)) with true.
  2:{ symmetry. apply andb_true_iff. split.
      - apply negb_true_iff, Z.eqb_neq. exact Hnz.
      - apply Z.ltb_lt. unfold len in *. simpl. lia. }
  assert (Hunlink : removeElement c1 new = (c, Some new)).
  { unfold removeElement. simpl. rewrite Z.eqb_refl. now destruct c. }
  unfold removeOldest. simpl ll.
  destruct (ll c) as [|x r] eqn:Hc using rev_ind.
  - simpl. exact Hunlink.
  - clear IHr. simpl. rewrite rev_app_distr. simpl.
    apply Forall_app in Hdirty as [Hr _].
    rewrite (scan_app_dirty (rev r) [new] (Forall_rev Hr)). simpl. exact Hunlink.
Qed.

(** X6.  [get] on a resident key returns its item and makes it the most
    recent key; the other keys keep their order, the number of entries is the
    same and every key reads as before. *)
Theorem get_promotes (c : Cache) (k : Z) (e : entry) :
  NoDup (map key (ll c)) -> lookup k (ll c) = Some e ->
  snd (get c k) = Some (value e) /\
  keys (fst (get c k)) = List.remove Z.eq_dec k (keys c) ++ [k] /\
  len (fst (get c k)) = len c /\
  forall k', peek (fst (get c k)) k' = peek c k'.
Proof.
  intros Hnd Hl. unfold get. rewrite Hl. simpl.
  destruct (lookup_In _ _ _ Hl) as [Hin Hke].
  split; [reflexivity|]. split; [|split].
  - unfold keys. simpl. rewrite map_app. simpl. rewrite Hke. f_equal.
    clear Hl Hin Hke e. rewrite !map_rev.
    assert (Hrm : map key (unlink k (ll c)) = List.remove Z.eq_dec k (map key (ll c))).
    { induction (ll c) as [|x r IH]; simpl; [reflexivity|].
      inversion Hnd as [|? ? Hnot Hr]; subst.
      destruct (key x =? k) eqn:Hk.
      - apply Z.eqb_eq in Hk. subst k. destruct (Z.eq_dec (key x) (key x)); [|congruence].
        symmetry. now apply notin_remove.
      - apply Z.eqb_neq in Hk. destruct (Z.eq_dec k (key x)); [congruence|].
        simpl. now rewrite IH. }
    rewrite Hrm. clear Hrm Hnd. induction (map key (ll c)) as [|y ys IH]; [reflexivity|].
    cbn [rev]. rewrite remove_app, <- IH. simpl.
    destruct (Z.eq_dec k y); simpl; [now rewrite app_nil_r | reflexivity].
  - unfold len. simpl. rewrite <- (unlink_length k (ll c) e Hl). lia.
  - intros k'. unfold peek. simpl. destruct (key e =? k') eqn:Hk.
    + apply Z.eqb_eq in Hk. rewrite <- Hk, Hke. now rewrite Hl.
    + apply Z.eqb_neq in Hk. rewrite lookup_unlink_other by congruence. reflexivity.
Qed.

(** X7.  [remove] on a resident key hands its entry to the callback and
    leaves the key absent, one entry fewer and every other key as it read
    before; on an absent key it changes nothing. *)
Theorem remove_gone (c : Cache) (k : Z) :
  NoDup (map key (ll c)) ->
  (forall e, lookup k (ll c) = Some e ->
     snd (remove c k) = Some e /\
     peek (fst (remove c k)) k = None /\
     len (fst (remove c k)) = len c - 1 /\
     forall k', k' <> k -> peek (fst (remove c k)) k' = peek c k') /\
  (lookup k (ll c) = None -> remove c k = (c, None)).
Proof.
  intros Hnd. split.
  - intros e Hl. unfold remove, removeElement. rewrite Hl. simpl.
    destruct (lookup_In _ _ _ Hl) as [_ Hke]. rewrite Hke.
    split; [reflexivity|]. split; [|split].
    + unfold peek. simpl. now rewrite lookup_unlink_same.
    + unfold len. simpl. rewrite <- (unlink_length k (ll c) e Hl). lia.
    + intros k' Hne. unfold peek. simpl. now rewrite lookup_unlink_other.
  - intros Hl. unfold remove. now rewrite Hl.
Qed.

End CacheMore.

(** ** More on the file: what is written, and when *)

Section FileMore.
Context {E : Env}.
Import smartfile.
Local Open Scope go_scope.

Lemma lookup_setClean_other (k k' : Z) (l : list entry) :
  k' <> k -> lookup k' (setClean k l) = lookup k' l.
Proof.
  intros Hne. induction l as [|x r IH]; simpl; [reflexivity|].
  destruct (key x =? k) eqn:Hk; simpl.
  - apply Z.eqb_eq in Hk. destruct (key x =? k') eqn:Hk'; [|reflexivity].
    apply Z.eqb_eq in Hk'. congruence.
  - now rewrite IH.
Qed.

Lemma map_writeBack_setClean (h : Handle) (k : Z) (l : list entry) :
  map (writeBack h) (setClean k l) = map (writeBack h) l.
Proof.
  induction l as [|x r IH]; simpl; [reflexivity|].
  destruct (key x =? k); simpl; [reflexivity | now rewrite IH].
Qed.

Lemma owed_setClean (k : Z) (l : list entry) (ks : list Z) :
  ~ In k ks -> owed (setClean k l) ks = owed l ks.
Proof.
  unfold owed. induction ks as [|k' ks IH]; simpl; intros Hnot; [reflexivity|].
  rewrite lookup_setClean_other by (intros ->; apply Hnot; now left).
  rewrite IH; [reflexivity|]. intros H. apply Hnot. now right.
Qed.

Lemma owed_keys (l sub : list entry) :
  NoDup (map key l) -> incl sub l ->
  owed l (map key sub) = filter (fun e => dirty (value e)) sub.
Proof.
  intros Hnd. unfold owed. induction sub as [|x r IH]; intros Hincl; [reflexivity|].
  simpl. rewrite (lookup_NoDup x l Hnd) by (apply Hincl; now left).
  rewrite IH by (intros y Hy; apply Hincl; now right).
  now destruct (dirty (value x)).
Qed.

Lemma replies_cons (h : Handle) (e : entry) (r : list entry) (w w1 : World)
  (a : option Go.error) :
  os_WriteAt h (bytes (value e)) (key e) w = (a, w1) ->
  replies h (e :: r) w = (a :: fst (replies h r w1), snd (replies h r w1)).
Proof. intros H. simpl. rewrite H. now destruct (replies h r w1). Qed.

(** The loop of [Flush] issues the writes it owes in order, goes on while
    they succeed, and stops at the first that fails, whose error it returns. *)
Lemma flushKeys_issues (ks : list Z) (fq fq' : File) (err : option Go.error) (s s' : St) :
  NoDup ks -> flushKeys ks fq s = Ok (fq', err) s' ->
  exists done rest,
    owed (ll (queue fq)) ks = done ++ rest /\
    trace s' = trace s ++ map (writeBack (file fq)) done /\
    world s' = snd (replies (file fq) done (world s)) /\
    ended err (fst (replies (file fq) done (world s))) /\
    (err = None -> rest = []).
Proof.
  revert fq s. induction ks as [|k ks IH]; intros fq s Hnd; simpl.
  - unfold ret. intros [= <- <- <-]. exists [], []. simpl. rewrite app_nil_r.
    repeat split; auto.
  - inversion Hnd as [|? ? Hnot Hnd']; subst.
    unfold peek. destruct (lookup k (ll (queue fq))) as [e|] eqn:Hl; [|discriminate]. simpl.
    destruct (lookup_In _ _ _ Hl) as [_ Hke].
    set (fq1 := setQueue fq _).
    assert (Howed : owed (ll (queue fq1)) ks = owed (ll (queue fq)) ks).
    { subst fq1; simpl. now apply owed_setClean. }
    destruct (dirty (value e)).
    + unfold bind, WriteAt, syscall.
      destruct (os_WriteAt (file fq) (bytes (value e)) k (world s)) as [a w] eqn:Hw.
      rewrite <- Hke in Hw.
      destruct a as [e'|].
      * unfold ret. intros [= <- <- <-].
        exists [e], (owed (ll (queue fq)) ks).
        rewrite (replies_cons _ _ _ _ _ _ Hw). simpl.
        split; [reflexivity|]. split; [unfold writeBack; now rewrite Hke|].
        split; [reflexivity|]. split; [now exists 0%nat | discriminate].
      * intros Hrun.
        destruct (IH fq1 _ Hnd' Hrun) as (done & rest & Hp & Htr & Hwd & Hend & Hnone).
        exists (e :: done), rest. rewrite <- Howed, Hp.
        rewrite (replies_cons _ _ _ _ _ _ Hw). simpl in *.
        split; [reflexivity|].
        split; [rewrite Htr, <- app_assoc; unfold writeBack; now rewrite Hke|].
        split; [exact Hwd|]. split; [|assumption].
        destruct err as [e'|]; simpl in *.
        -- destruct Hend as [n Hn]. exists (S n). simpl. now rewrite Hn.
        -- now constructor.
    + intros Hrun.
      destruct (IH fq1 s Hnd' Hrun) as (done & rest & Hp & Htr & Hwd & Hend & Hnone).
      exists done, rest. now rewrite <- Howed, Hp.
Qed.

(** X9.  What a [Flush] that returned has done.  The writes it owes are those
    of the dirty entries, from the least to the most recently used.  It has
    issued a leading part [done] of them, each once, and made no other call;
    the world is the one these writes leave.  Every write but the last was
    answered [nil].  When [Flush] returns [nil] the last one was too, and
    nothing is left over; when it returns an error, that is the answer to the
    last write issued ([Flush] stops at the first failure, and an error is
    never reported without a write). *)
Theorem Flush_writes_dirty_oldest_first
  (fq fq' : File) (err : option Go.error) (s s' : St) :
  NoDup (map key (ll (queue fq))) ->
  Flush fq s = Ok (fq', err) s' ->
  exists done rest,
    filter (fun e => dirty (value e)) (rev (ll (queue fq))) = done ++ rest /\
    trace s' = trace s ++ map (writeBack (file fq)) done /\
    world s' = snd (replies (file fq) done (world s)) /\
    ended err (fst (replies (file fq) done (world s))) /\
    (err = None -> rest = []).
Proof.
  intros Hnd Hrun. unfold Flush, keys in Hrun.
  assert (Hks : NoDup (map key (rev (ll (queue fq))))).
  { rewrite map_rev. now apply NoDup_rev. }
  destruct (flushKeys_issues _ fq fq' err s s' Hks Hrun)
    as (done & rest & Hp & Htr & Hwd & Hend & Hnone).
  exists done, rest. rewrite <- Hp. split; [|auto].
  symmetry. apply owed_keys; [assumption|]. intros x Hx. now apply in_rev.
Qed.

(** X10.  [Flush] always returns; it evicts nothing and changes no cached
    bytes, also when a write fails; it calls nothing but [WriteAt], and an
    entry that was clean stays clean. *)
Theorem Flush_keeps_entries (fq : File) (s : St) :
  exists fq' err s',
    Flush fq s = Ok (fq', err) s' /\ sameContents fq fq' /\ wrote s s' /\
    forall k, cachedDirty (ll (queue fq)) k = Some false ->
              cachedDirty (ll (queue fq')) k = Some false.
Proof.
  destruct (Flush_runs fq s) as (fq' & err & s' & Hrun & Hsame & Hw).
  exists fq', err, s'. split; [assumption|]. split; [assumption|]. split; [assumption|].
  intros k. now apply (flushKeys_keeps_clean (keys (queue fq)) k fq fq' err s s').
Qed.

(** X8.  A hit on an entry at least as long as the buffer fills the buffer
    with the leading bytes of the entry, reports no error and makes no call
    into the system; the entry becomes the most recent one. *)
Theorem Read_serves_prefix (fq : File) (data : list byte) (o : Z) (it : item) (s : St) :
  peek (queue fq) o = Some it -> (length data <= length (bytes it))%nat ->
  Read fq data o s
  = Ok (setQueue fq (fst (get (queue fq) o)), firstn (length data) (bytes it), None) s.
Proof.
  unfold peek, Read, get. intros Hp Hlen.
  destruct (lookup o (ll (queue fq))) as [e|]; [|discriminate].
  injection Hp as <-. simpl. apply Nat.leb_le in Hlen. now rewrite Hlen.
Qed.

(** What [Add] does to the keys it was not called for. *)
Lemma Add_other_keys (c : Cache) (k k' : Z) (v : item) :
  k' <> k ->
  lookup k' (ll (fst (Add c k v))) = lookup k' (ll c) \/
  exists e, snd (Add c k v) = Some e /\ key e = k' /\ In e (ll c).
Proof.
  intros Hne. unfold Add. destruct (lookup k (ll c)) as [e0|] eqn:Hl.
  - left. simpl. destruct (k =? k') eqn:Hk; [apply Z.eqb_eq in Hk; congruence|].
    now apply lookup_unlink_other.
  - set (c1 := mkCache (MaxEntries c) (mkEntry k v :: ll c)).
    assert (H1 : lookup k' (ll c1) = lookup k' (ll c)).
    { simpl. destruct (k =? k') eqn:Hk; [apply Z.eqb_eq in Hk; congruence | reflexivity]. }
    destruct (negb (MaxEntries c1 =? 0) && (MaxEntries c1 <? len c1)); [|left; exact H1].
    destruct (removeOldest_cases c1) as [-> | (e & Hin & ->)]; [left; exact H1|].
    destruct (Z.eq_dec (key e) k') as [Heq | Hneq].
    + right. exists e. split; [reflexivity|]. split; [assumption|].
      destruct Hin as [<- | Hin]; [simpl in Heq; congruence | assumption].
    + left. cbn [fst ll]. rewrite lookup_unlink_other by congruence. exact H1.
Qed.

(** [Add] evicts nothing when the key is resident, the cache has no bound or
    it is below its bound. *)
Lemma Add_with_room (c : Cache) (k : Z) (v : item) :
  lookup k (ll c) <> None \/ MaxEntries c = 0 \/ len c < MaxEntries c ->
  snd (Add c k v) = None /\
  exists rest, ll (fst (Add c k v)) = mkEntry k v :: rest.
Proof.
  intros Hroom. unfold Add. destruct (lookup k (ll c)) as [e0|] eqn:Hl; [simpl; eauto|].
  set (c1 := mkCache (MaxEntries c) (mkEntry k v :: ll c)).
  replace (negb (MaxEntries c1 =? 0) && (MaxEntries c1 <? len c1)) with false; [simpl; eauto|].
  symmetry. apply andb_false_iff. destruct Hroom as [H | [H | H]]; [congruence | |].
  - left. apply negb_false_iff, Z.eqb_eq. exact H.
  - right. apply Z.ltb_ge. unfold len in *. simpl. lia.
Qed.

(** [queueAdd] always returns: the cache is the one [Add] gives, and the only
    call made is the write-back of the entry [Add] evicted, if any. *)
Lemma queueAdd_runs (fq : File) (k : Z) (v : item) (s : St) :
  exists s',
    queueAdd fq k v s = Ok (setQueue fq (fst (Add (queue fq) k v))) s' /\
    trace s' = trace s ++ match snd (Add (queue fq) k v) with
                          | Some e => [writeBack (file fq) e]
                          | None => []
                          end.
Proof.
  unfold queueAdd. destruct (Add (queue fq) k v) as [q [e|]]; simpl.
  - unfold OnEvicted, bind, WriteAt, syscall, ret.
    destruct (os_WriteAt (file fq) (bytes (value e)) (key e) (world s)) as [err w].
    eexists. split; reflexivity.
  - exists s. split; [reflexivity | now rewrite app_nil_r].
Qed.

(** X24.  [Read] always returns and never reports an error, whatever the
    positional read answered; on a hit it makes no call into the system. *)
Theorem Read_never_reports_error (fq : File) (data : list byte) (o : Z) (s : St) :
  exists fq' d s',
    Read fq data o s = Ok (fq', d, None) s' /\
    (lookup o (ll (queue fq)) <> None -> s' = s) /\
    (lookup o (ll (queue fq)) = None ->
     exists evs, trace s' = trace s ++ EvReadAt (file fq) (length data) o :: evs /\
                 forallb isWriteAt evs = true).
Proof.
  unfold Read, get. destruct (lookup o (ll (queue fq))) as [e|].
  - do 3 eexists. split; [reflexivity|]. split; [reflexivity | congruence].
  - unfold bind at 1. unfold ReadAt, syscall.
    destruct (os_ReadAt (file fq) data o (world s)) as [[d [err|]] w].
    + destruct (queueAdd_runs fq o (mkItem d false)
                  (mkSt w (trace s ++ [EvReadAt (file fq) (length data) o])))
        as (s1 & Hadd & Htr).
      unfold bind. rewrite Hadd. unfold ret. do 3 eexists. split; [reflexivity|].
      split; [congruence|]. intros _.
      exists (match snd (Add (queue fq) o (mkItem d false)) with
              | Some e => [writeBack (file fq) e]
              | None => []
              end).
      split; [rewrite Htr; simpl; now rewrite <- app_assoc|].
      now destruct (snd (Add (queue fq) o (mkItem d false))).
    + unfold ret. do 3 eexists. split; [reflexivity|]. split; [congruence|].
      intros _. exists []. split; reflexivity.
Qed.

(** X11.  A write that neither evicts (the offset is cached already, or the
    cache is unbounded or below its bound) nor falls on a flush turn makes no
    call into the system: the bytes are only cached, dirty, the counter moves
    by one and every other offset reads as before. *)
Theorem Write_buffered (fq : File) (b : list byte) (o : Z) (s : St) :
  size fq <> 0 ->
  Go.uint_wrap (ops fq + 1) mod size fq <> 0 ->
  lookup o (ll (queue fq)) <> None \/ MaxEntries (queue fq) = 0 \/
    len (queue fq) < MaxEntries (queue fq) ->
  exists fq',
    Write fq b o s = Ok fq' s /\
    peek (queue fq') o = Some (mkItem b true) /\
    ops fq' = Go.uint_wrap (ops fq + 1) /\
    forall k', k' <> o -> peek (queue fq') k' = peek (queue fq) k'.
Proof.
  intros Hsize Hturn Hroom. unfold Write.
  set (fq1 := setOps fq (Go.uint_wrap (ops fq + 1))).
  destruct (Add_with_room (queue fq) o (mkItem b true) Hroom) as [Hnone [rest Hrest]].
  destruct (queueAdd_runs fq1 o (mkItem b true) s) as (s1 & Hadd & Htr).
  simpl in Hadd, Htr. rewrite Hnone, app_nil_r in Htr.
  assert (Hs : s1 = s).
  { unfold queueAdd in Hadd. simpl in Hadd.
    destruct (Add (queue fq) o (mkItem b true)) as [q ev]. simpl in Hnone. subst ev.
    simpl in Hadd. unfold ret, bind in Hadd. now injection Hadd. }
  subst s1. rewrite (bind_Ok _ _ _ _ _ Hadd). simpl.
  apply Z.eqb_neq in Hsize, Hturn. rewrite Hsize, Hturn.
  eexists. split; [reflexivity|]. simpl. split; [|split; [reflexivity|]].
  - unfold peek. rewrite Hrest. simpl. now rewrite Z.eqb_refl.
  - intros k' Hne. unfold peek.
    destruct (Add_other_keys (queue fq) o k' (mkItem b true) Hne) as [-> | (e & He & _)];
      [reflexivity | congruence].
Qed.

(** X12.  [Write] never drops the bytes cached at another offset without a
    positional write of these bytes at that offset: after the call they are
    still cached, or the write-back is among the calls it made. *)
Theorem Write_keeps_or_writes_back
  (fq : File) (b b' : list byte) (o k' : Z) (s : St) :
  size fq <> 0 -> NoDup (map key (ll (queue fq))) -> k' <> o ->
  cachedBytes (ll (queue fq)) k' = Some b' ->
  exists fq' s' evs,
    Write fq b o s = Ok fq' s' /\
    trace s' = trace s ++ evs /\
    (cachedBytes (ll (queue fq')) k' = Some b' \/ In (EvWriteAt (file fq) b' k') evs).
Proof.
  intros Hsize Hnd Hne Hb. unfold Write.
  set (fq1 := setOps fq (Go.uint_wrap (ops fq + 1))).
  destruct (queueAdd_runs fq1 o (mkItem b true) s) as (s1 & Hadd & Htr).
  simpl in Hadd, Htr. rewrite (bind_Ok _ _ _ _ _ Hadd). simpl.
  set (fq2 := setQueue fq1 (fst (Add (queue fq) o (mkItem b true)))) in *.
  assert (Hkept : cachedBytes (ll (queue fq2)) k' = Some b' \/
                  In (EvWriteAt (file fq) b' k')
                     match snd (Add (queue fq) o (mkItem b true)) with
                     | Some e => [writeBack (file fq) e]
                     | None => []
                     end).
  { destruct (Add_other_keys (queue fq) o k' (mkItem b true) Hne) as [Hsame | (e & He & Hke & Hin)].
    - left. subst fq2; simpl. unfold cachedBytes in *. now rewrite Hsame.
    - right. rewrite He. left. unfold writeBack. rewrite Hke. f_equal.
      unfold cachedBytes in Hb. rewrite <- Hke, (lookup_NoDup e _ Hnd Hin) in Hb.
      simpl in Hb. congruence. }
  apply Z.eqb_neq in Hsize. rewrite Hsize.
  match goal with |- context [if ?turn then _ else _] => destruct turn end.
  - destruct (Flush_runs fq2 s1) as (fq3 & err & s3 & Hf & (Hbytes & _) & (evs & Hevs & _)).
    rewrite (bind_Ok _ _ _ _ _ Hf). do 3 eexists. split; [reflexivity|]. split.
    + rewrite Hevs, Htr, <- app_assoc. reflexivity.
    + rewrite Hbytes. destruct Hkept as [H | H]; [now left | right; apply in_or_app; now left].
  - do 3 eexists. split; [reflexivity|]. split; [exact Htr | exact Hkept].
Qed.

Lemma flushKeys_writeBacks (ks : list Z) (fq fq' : File) (err : option Go.error) (s s' : St) :
  flushKeys ks fq s = Ok (fq', err) s' ->
  map (writeBack (file fq')) (ll (queue fq')) = map (writeBack (file fq)) (ll (queue fq)) /\
  file fq' = file fq /\ MaxEntries (queue fq') = MaxEntries (queue fq).
Proof.
  revert fq s. induction ks as [|k ks IH]; intros fq s; simpl.
  - unfold ret. intros [= <- _ _]. auto.
  - destruct (peek (queue fq) k) as [it|]; [|discriminate].
    set (fq1 := setQueue fq _).
    assert (Hstep : forall s1, flushKeys ks fq1 s1 = Ok (fq', err) s' ->
      map (writeBack (file fq')) (ll (queue fq')) = map (writeBack (file fq)) (ll (queue fq)) /\
      file fq' = file fq /\ MaxEntries (queue fq') = MaxEntries (queue fq)).
    { intros s1 Hrun. destruct (IH fq1 s1 Hrun) as (Hm & Hf & Hx).
      subst fq1; simpl in *. rewrite Hm, map_writeBack_setClean. auto. }
    destruct (dirty it); [|apply Hstep].
    unfold bind, WriteAt, syscall.
    destruct (os_WriteAt (file fq) (bytes it) k (world s)) as [[e|] w].
    + unfold ret. intros [= <- _ _]. auto.
    + apply Hstep.
Qed.

(** X13.  [Clear] always returns, with the cache empty and the counter zero,
    and has issued a positional write for every entry that was cached (dirty
    entries that the flush reached are written twice), and nothing but
    positional writes. *)
Theorem Clear_writes_everything (fq : File) (s : St) :
  exists fq' s' evs,
    Clear fq s = Ok fq' s' /\
    ll (queue fq') = [] /\ ops fq' = 0 /\
    trace s' = trace s ++ evs /\ forallb isWriteAt evs = true /\
    forall e, In e (ll (queue fq)) -> In (writeBack (file fq) e) evs.
Proof.
  unfold Clear.
  destruct (Flush_runs fq s) as (fq1 & err & s1 & Hf & _ & (evs1 & Hevs1 & Hw1)).
  destruct (flushKeys_writeBacks _ _ _ _ _ _ Hf) as (Hmap & Hfile & _).
  rewrite (bind_Ok _ _ _ _ _ Hf). simpl.
  destruct (clear_runs (queue fq1) s1) as (es & w1 & Hclear & Hperm).
  unfold bind at 1. rewrite Hclear.
  destruct (evictedAll_trace (file fq1) es (mkSt w1 (trace s1))) as (s2 & Hev & Htr2).
  unfold bind. rewrite Hev. unfold ret.
  exists (setOps (setQueue fq1 (mkCache (MaxEntries (queue fq1)) [])) 0), s2,
         (evs1 ++ map (writeBack (file fq1)) es).
  split; [reflexivity|]. split; [reflexivity|]. split; [reflexivity|].
  split; [rewrite Htr2; simpl; rewrite Hevs1, <- app_assoc; reflexivity|]. split.
  - rewrite forallb_app, Hw1. simpl. apply forallb_forall.
    intros ev Hin. apply in_map_iff in Hin as (e & <- & _). reflexivity.
  - intros e He. apply in_or_app. right.
    apply (Permutation_in _ (Permutation_sym (Permutation_map (writeBack (file fq1)) Hperm))).
    rewrite Hmap. now apply in_map.
Qed.

End FileMore.

(** ** More on the registry: round trip, lengths, errors *)

Section StorageMore.
Context {E : Env}.
Local Open Scope go_scope.

(** X14.  What [SaveData] stored for a registered identifier, [LoadData]
    returns when asked for as many bytes at the same offset, from the cache:
    the load makes no call into the system. *)
Theorem SaveData_LoadData_roundtrip
  (m : storage.ManagerStruct) (ID : string) (fq : smartfile.File)
  (data : list byte) (o : Z) (s : St) :
  storage.find ID (storage.files (storage.cache m)) = Some fq ->
  smartfile.size fq <> 0 -> 0 <= smartfile.MaxEntries (smartfile.queue fq) ->
  data <> [] ->
  exists m1 s1 m2,
    storage.SaveData m ID data o s = Ok (m1, None) s1 /\
    storage.LoadData m1 ID o (Z.of_nat (length data)) s1 = Ok (m2, Some data, None) s1.
Proof.
  intros Hfind Hsize Hcap Hne.
  destruct (SaveData_resident m ID fq data o s Hfind Hsize Hcap)
    as (m1 & fq1 & s1 & Hsave & Hfind1 & Hb & _).
  destruct (Read_hit fq1 (repeat x00 (length data)) data o s1 Hb) as [fq2 Hr];
    [rewrite repeat_length; lia|].
  rewrite repeat_length, firstn_all in Hr.
  exists m1, s1. eexists. split; [exact Hsave|].
  unfold storage.LoadData, storage.getFileFromCache, storage.Get. rewrite Hfind1.
  unfold bind at 1. unfold ret at 1.
  assert (Hlen : (Z.of_nat (length data) =? 0) = false).
  { apply Z.eqb_neq. destruct data; [congruence | simpl; lia]. }
  rewrite Hlen. unfold bind at 1. unfold ret at 1.
  replace (Z.of_nat (length data) <? 0) with false by (symmetry; apply Z.ltb_ge; lia).
  rewrite Nat2Z.id. unfold bind. rewrite Hr. reflexivity.
Qed.

(** X15.  Asked for length zero, [LoadData] takes the length of the file on
    the medium: where the offset is cached with at least that many bytes, it
    returns that many leading bytes of the cached entry, whatever longer
    content the cache holds; with the file still empty on the medium, nothing
    of what is cached comes back. *)
Theorem LoadData_zero_length
  (m : storage.ManagerStruct) (ID : string) (fq : smartfile.File)
  (b : list byte) (o n : Z) (s : St) (w : World) :
  storage.find ID (storage.files (storage.cache m)) = Some fq ->
  cachedBytes (smartfile.ll (smartfile.queue fq)) o = Some b ->
  os_Stat_Size (smartfile.file fq) (world s) = (Some n, w) ->
  0 <= n <= Z.of_nat (length b) ->
  exists m',
    storage.LoadData m ID o 0 s
    = Ok (m', Some (firstn (Z.to_nat n) b), None)
         (mkSt w (trace s ++ [EvStat (smartfile.file fq)])).
Proof.
  intros Hfind Hb Hstat Hn.
  unfold storage.LoadData, storage.getFileFromCache, storage.Get. rewrite Hfind.
  unfold bind at 1. unfold ret at 1. simpl (0 =? 0).
  unfold bind at 1. unfold smartfile.GetSize, bind at 1. unfold Stat_Size, syscall.
  rewrite Hstat. unfold ret at 1.
  replace (n <? 0) with false by (symmetry; apply Z.ltb_ge; lia).
  destruct (Read_hit fq (repeat x00 (Z.to_nat n)) b o
              (mkSt w (trace s ++ [EvStat (smartfile.file fq)])) Hb) as [fq2 Hr];
    [rewrite repeat_length; lia|].
  rewrite repeat_length in Hr. unfold bind. rewrite Hr. eexists. reflexivity.
Qed.

(** X16.  [FlushData], like [SaveData], uses the file whatever the error of
    its resolution: for an identifier that is not registered and cannot be
    opened it panics on the nil pointer. *)
Theorem FlushData_open_failure
  (m : storage.ManagerStruct) (ID : string) (e : Go.error) (s : St) (w : World) :
  storage.find ID (storage.files (storage.cache m)) = None ->
  os_OpenFile (filepath_Join dataPath ID) (world s) = (inr e, w) ->
  storage.FlushData m ID s =
  Panic "invalid memory address or nil pointer dereference"
        (mkSt w (trace s ++ [EvOpenFile (filepath_Join dataPath ID)])).
Proof.
  intros Hfind Hopen.
  unfold storage.FlushData, storage.getFileFromCache, storage.Get. rewrite Hfind.
  unfold smartfile.NewFile, bind, OpenFile, syscall. now rewrite Hopen.
Qed.

(** X17.  For a registered identifier [FlushData] always returns and always
    reports no error, also when a write of the flush failed: the error of
    [Flush] is dropped.  The registered file keeps its entries and bytes. *)
Theorem FlushData_reports_no_error
  (m : storage.ManagerStruct) (ID : string) (fq : smartfile.File) (s : St) :
  storage.find ID (storage.files (storage.cache m)) = Some fq ->
  exists m' fq' err s',
    smartfile.Flush fq s = Ok (fq', err) s' /\
    storage.FlushData m ID s = Ok (m', None) s' /\
    storage.find ID (storage.files (storage.cache m')) = Some fq' /\
    sameContents fq fq'.
Proof.
  intros Hfind.
  destruct (Flush_runs fq s) as (fq' & err & s' & Hf & Hsame & _).
  unfold storage.FlushData, storage.getFileFromCache, storage.Get. rewrite Hfind.
  unfold bind at 1. unfold ret at 1. unfold bind. rewrite Hf. unfold ret.
  eexists. exists fq', err, s'. split; [reflexivity|]. split; [reflexivity|].
  split; [|assumption]. unfold storage.mutated. simpl storage.files. apply find_update_front.
Qed.

(** For an identifier that is not registered [DeleteData] only removes
    the backing file and returns what the removal answered (an error when
    there is no such file); the registry is left as it was. *)
Theorem DeleteData_not_open (m : storage.ManagerStruct) (ID : string) (s : St) :
  storage.find ID (storage.files (storage.cache m)) = None ->
  storage.DeleteData m ID s =
  Ok (m, fst (os_Remove (filepath_Join dataPath ID) (world s)))
     (mkSt (snd (os_Remove (filepath_Join dataPath ID) (world s)))
           (trace s ++ [EvRemove (filepath_Join dataPath ID)])).
Proof.
  intros Hfind. unfold storage.DeleteData, storage.Get. rewrite Hfind.
  unfold bind, ret, Remove, syscall.
  destruct (os_Remove (filepath_Join dataPath ID) (world s)) as [err w].
  now destruct m as [[bd fs]].
Qed.

Lemma find_Add (r : storage.Registry) (ID : string) (f : smartfile.File) :
  0 <= storage.bound r ->
  storage.find ID (storage.files (storage.Add r ID f)) = Some f.
Proof.
  intros Hb. unfold storage.Add.
  set (l := (ID, f) :: storage.drop ID (storage.files r)).
  destruct (negb (storage.bound r =? 0) && (storage.bound r <? Z.of_nat (length l))) eqn:Hc.
  - apply andb_true_iff in Hc as [Hnz Hlt].
    apply negb_true_iff, Z.eqb_neq in Hnz. apply Z.ltb_lt in Hlt.
    subst l. simpl storage.files.
    destruct (storage.drop ID (storage.files r)) as [|x xs]; [simpl in Hlt; lia|].
    cbn [removelast]. simpl. now rewrite String.eqb_refl.
  - subst l. simpl. now rewrite String.eqb_refl.
Qed.

End StorageMore.

(** ** More on the proxy: the threshold, creation *)

Section ProxyMore.
Context {E : Env} {K : sketches.Collab}.
Import sketches.
Local Open Scope go_scope.

(** X19.  With a threshold of zero every mutation panics on the division in
    [save], after the sketch has been mutated and before any call into the
    system. *)
Theorem zero_threshold_panics (g : Globals) (sp : SketchProxy) (op : Mutation) (s : St) :
  SaveThresholdOps g = 0 ->
  mutate g sp op s = Panic "integer divide by zero" s.
Proof.
  intros HT. rewrite mutate_unfold. unfold bind, save.
  replace (dirty (touched sp op)) with true by now destruct op.
  simpl. now rewrite HT.
Qed.

(** [save] when it goes through, in full: [SaveData] returns no error, then
    [SaveInfo] is called on the world [SaveData] left, and the errors of
    [Marshal] and of [SaveInfo] are logged. *)
Lemma save_due_run (g : Globals) (sp : SketchProxy) (force : bool)
  (fq : smartfile.File) (s : St) :
  dirty sp = true -> SaveThresholdOps g <> 0 ->
  ops sp mod SaveThresholdOps g = 0 \/ force = true ->
  storage.find (ID (info sp)) (storage.files (storage.cache (manager g))) = Some fq ->
  smartfile.size fq <> 0 -> 0 <= smartfile.MaxEntries (smartfile.queue fq) ->
  exists m1 s1,
    storage.SaveData (manager (logErr g (snd (Marshal (sketch sp)))))
                     (ID (info sp)) (fst (Marshal (sketch sp))) 0 s
    = Ok (m1, None) s1 /\
    save g sp force s
    = Ok (logErr (setManager (logErr g (snd (Marshal (sketch sp)))) m1)
                 (fst (manager_SaveInfo (ID (info sp)) (json_Marshal (info sp)) (world s1))),
          mkProxy (info sp) (sketch sp) (Go.uint_wrap (ops sp + 1)) false)
         (mkSt (snd (manager_SaveInfo (ID (info sp)) (json_Marshal (info sp)) (world s1)))
               (trace s1 ++ [EvSaveInfo (ID (info sp)) (json_Marshal (info sp))])).
Proof.
  intros Hd HT Hdue Hfind Hsize Hcap. unfold save. rewrite Hd. simpl.
  apply Z.eqb_neq in HT. rewrite HT.
  replace ((ops sp mod SaveThresholdOps g =? 0) || force) with true
    by (destruct Hdue as [-> | ->]; [reflexivity | now rewrite orb_true_r]).
  destruct (Marshal (sketch sp)) as [serialized merr] eqn:Hm. simpl.
  assert (Hfind1 : storage.find (ID (info sp))
                     (storage.files (storage.cache (manager (logErr g merr)))) = Some fq)
    by (destruct merr; exact Hfind).
  destruct (SaveData_resident (manager (logErr g merr)) (ID (info sp)) fq serialized 0 s
              Hfind1 Hsize Hcap) as (m' & fq' & s1 & Hsave & _).
  exists m', s1. split; [exact Hsave|].
  unfold bind. rewrite Hsave. unfold SaveInfo, syscall, ret.
  now destruct (manager_SaveInfo (ID (info sp)) (json_Marshal (info sp)) (world s1)) as [ierr w].
Qed.

Lemma logged_logErr (g : Globals) (err : option Go.error) :
  logged (logErr g err) = logged g ++ errors err.
Proof. destruct err; simpl; [reflexivity | now rewrite app_nil_r]. Qed.

(** X20.  With the file of the proxy registered and a threshold other than
    zero, every mutation returns, and returns the answer of the sketch.  When
    the proxy comes back dirty no save ran: the singletons and the system are
    as they were.  When it comes back clean a save ran: [SaveData] stored the
    serialized sketch at offset 0 and returned no error, [SaveInfo] was then
    called, once, on the world [SaveData] left, and the log has grown by the
    error of [Marshal], if any, followed by the error that call of [SaveInfo]
    answered, if any, and by nothing else. *)
Theorem mutation_answers_and_logs
  (g : Globals) (sp : SketchProxy) (op : Mutation) (fq : smartfile.File) (s : St) :
  SaveThresholdOps g <> 0 ->
  storage.find (ID (info sp)) (storage.files (storage.cache (manager g))) = Some fq ->
  smartfile.size fq <> 0 -> 0 <= smartfile.MaxEntries (smartfile.queue fq) ->
  exists g' sp' s',
    mutate g sp op s = Ok (g', sp', answer sp op) s' /\
    (dirty sp' = true -> g' = g /\ s' = s) /\
    (dirty sp' = false ->
     exists m1 s1,
       storage.SaveData (manager (logErr g (snd (Marshal (sketch sp')))))
                        (ID (info sp')) (fst (Marshal (sketch sp'))) 0 s
       = Ok (m1, None) s1 /\
       s' = mkSt (snd (manager_SaveInfo (ID (info sp')) (json_Marshal (info sp')) (world s1)))
                 (trace s1 ++ [EvSaveInfo (ID (info sp')) (json_Marshal (info sp'))]) /\
       logged g'
       = logged g ++ errors (snd (Marshal (sketch sp')))
           ++ errors (fst (manager_SaveInfo (ID (info sp')) (json_Marshal (info sp'))
                             (world s1)))).
Proof.
  intros HT Hfind Hsize Hcap. rewrite mutate_unfold. unfold bind.
  assert (Hd : dirty (touched sp op) = true) by now destruct op.
  destruct (Z.eq_dec (ops (touched sp op) mod SaveThresholdOps g) 0) as [Hz | Hnz].
  - assert (Hfind' : storage.find (ID (info (touched sp op)))
                       (storage.files (storage.cache (manager g))) = Some fq)
      by now rewrite ID_touched.
    destruct (save_due_run g (touched sp op) false fq s Hd HT (or_introl Hz) Hfind' Hsize Hcap)
      as (m1 & s1 & Hdata & Hsave).
    rewrite Hsave. do 3 eexists. split; [reflexivity|]. split.
    + simpl. discriminate.
    + intros _. exists m1, s1. cbn [info sketch]. split; [exact Hdata|]. split; [reflexivity|].
      rewrite logged_logErr. cbn [logged setManager]. rewrite logged_logErr.
      now rewrite <- app_assoc.
  - rewrite (save_not_due g (touched sp op) s HT Hnz).
    exists g, (touched sp op), s. split; [reflexivity|]. split; [auto|].
    rewrite Hd. discriminate.
Qed.

(** X21.  From one threshold save to the next.  Let the data file of the
    proxy be registered (size not zero, non-negative cache bound), the
    threshold [T] be at least 2, and the counter [c] of the proxy be one past
    a multiple of [T], with [c + T] below [2^64] (no wrap).  Then the next
    [T - 2] mutations save nothing and leave the singletons and the system as
    they were, and the mutation after them returns the answer of the sketch
    and saves.  That save leaves the counter at [c + T], one past a multiple
    of [T] again. *)
Theorem next_save_after_a_save
  (g : Globals) (sp : SketchProxy) (pre : list Mutation) (last : Mutation)
  (fq : smartfile.File) (s : St) :
  2 <= SaveThresholdOps g ->
  0 <= ops sp -> ops sp + SaveThresholdOps g < 2 ^ 64 ->
  ops sp mod SaveThresholdOps g = 1 ->
  Z.of_nat (length pre) = SaveThresholdOps g - 2 ->
  storage.find (ID (info sp)) (storage.files (storage.cache (manager g))) = Some fq ->
  smartfile.size fq <> 0 -> 0 <= smartfile.MaxEntries (smartfile.queue fq) ->
  exists sp1 g2 sp2 s2,
    mutateAll g sp pre s = Ok (g, sp1) s /\
    mutate g sp1 last s = Ok (g2, sp2, answer sp1 last) s2 /\
    saved g2 (touched sp1 last) sp2 s s2 /\
    ops sp2 = ops sp + SaveThresholdOps g /\
    ops sp2 mod SaveThresholdOps g = 1.
Proof.
  intros HT H0 Hlt Hmod Hlen Hfind Hsize Hcap.
  assert (Hne : SaveThresholdOps g <> 0) by lia.
  destruct (mutateAll_not_due g pre sp s Hne H0) as (sp1 & Hrun & Hops1 & Hid1); [lia | |].
  { intros i Hi. rewrite Z.add_mod, Hmod by assumption.
    rewrite (Z.mod_small i) by lia. rewrite Z.mod_small; lia. }
  destruct (ops_touched sp1 last) as [Hops2 Hd2]; [lia | lia |].
  assert (Hdue : ops (touched sp1 last) mod SaveThresholdOps g = 0).
  { rewrite Hops2, Hops1, Hlen.
    replace (ops sp + (SaveThresholdOps g - 2) + 1)
      with (ops sp + (SaveThresholdOps g - 1)) by lia.
    rewrite Z.add_mod, Hmod by assumption.
    rewrite (Z.mod_small (SaveThresholdOps g - 1)) by lia.
    replace (1 + (SaveThresholdOps g - 1)) with (SaveThresholdOps g) by lia.
    now apply Z.mod_same. }
  destruct (save_due g (touched sp1 last) false fq s Hd2 Hne (or_introl Hdue))
    as (g2 & sp2 & s2 & Hsave & Hsaved);
    [now rewrite ID_touched, Hid1 | assumption | assumption |].
  exists sp1, g2, sp2, s2.
  split; [exact Hrun|].
  split; [rewrite mutate_unfold; unfold bind; rewrite Hsave; reflexivity|].
  split; [exact Hsaved|].
  destruct Hsaved as (-> & _). cbn [ops]. rewrite Hops2, Hops1, Hlen. unfold Go.uint_wrap.
  rewrite Z.mod_small by lia.
  replace (ops sp + (SaveThresholdOps g - 2) + 1 + 1) with (ops sp + SaveThresholdOps g) by lia.
  split; [reflexivity|].
  rewrite Z.add_mod, Hmod, Z.mod_same by assumption. simpl. rewrite Z.mod_small; lia.
Qed.

(** X22.  [createSketch] opens and registers the data file before it looks at
    the type tag: for a tag no constructor knows it returns the error
    "Invalid sketch type", with the file created, open and registered. *)
Theorem createSketch_invalid_type
  (g : Globals) (i : Info) (h : Handle) (s : St) (w : World) :
  os_OpenFile (filepath_Join dataPath (ID i)) (world s) = (inl h, w) ->
  NewSketch i = InvalidType ->
  createSketch g i s =
  Ok (setManager g
        (storage.mkManager
           (storage.Add (storage.cache (manager g)) (ID i)
              (smartfile.mkFile (filepath_Join dataPath (ID i)) h
                 (smartfile.NewLRU (Go.int_of_uint storage.fileCapacity))
                 storage.fileCapacity 0))),
      None, Some ("Invalid sketch type: " ++ Type_ i)%string)
     (mkSt w (trace s ++ [EvOpenFile (filepath_Join dataPath (ID i))])).
Proof.
  intros Hopen Hnew. unfold createSketch, storage.Create, smartfile.NewFile.
  unfold bind, OpenFile, syscall, ret. rewrite Hopen. simpl. now rewrite Hnew.
Qed.

(** X23.  When the data file opens and the constructor builds the sketch,
    leaving the [Info] as [i'], [createSketch] returns a clean proxy with
    counter 1 that carries [i'], not the [Info] it was called with.  It has
    opened the data file of the identifier before the constructor ran and the
    data file of the identifier of [i'] after it (the same file twice when the
    constructor leaves the identifier alone: the first handle is replaced in
    the registry and never closed), then saved at once: positional writes
    only, then the record of [i'] stored under the identifier of [i']. *)
Theorem createSketch_success
  (g : Globals) (i i' : Info) (sk : Sketch) (h1 h2 : Handle) (s : St) (w1 w2 : World) :
  SaveThresholdOps g <> 0 ->
  0 <= storage.bound (storage.cache (manager g)) ->
  os_OpenFile (filepath_Join dataPath (ID i)) (world s) = (inl h1, w1) ->
  NewSketch i = Built i' sk ->
  os_OpenFile (filepath_Join dataPath (ID i')) w1 = (inl h2, w2) ->
  exists g' s' evs,
    createSketch g i s = Ok (g', Some (mkProxy i' sk 1 false), None) s' /\
    trace s' = trace s
               ++ [EvOpenFile (filepath_Join dataPath (ID i));
                   EvOpenFile (filepath_Join dataPath (ID i'))]
               ++ evs ++ [EvSaveInfo (ID i') (json_Marshal i')] /\
    forallb isWriteAt evs = true.
Proof.
  intros HT Hb Hopen1 Hnew Hopen2.
  set (path := filepath_Join dataPath (ID i)) in *.
  set (path' := filepath_Join dataPath (ID i')) in *.
  set (f1 := smartfile.mkFile path h1
               (smartfile.NewLRU (Go.int_of_uint storage.fileCapacity)) storage.fileCapacity 0).
  set (f2 := smartfile.mkFile path' h2
               (smartfile.NewLRU (Go.int_of_uint storage.fileCapacity)) storage.fileCapacity 0).
  set (r1 := storage.Add (storage.cache (manager g)) (ID i) f1).
  set (s1 := mkSt w1 (trace s ++ [EvOpenFile path])).
  set (s2 := mkSt w2 (trace s1 ++ [EvOpenFile path'])).
  set (g2 := setManager g (storage.mkManager (storage.Add r1 (ID i') f2))).
  assert (Hc1 : storage.Create (manager g) (ID i) s = Ok (storage.mkManager r1, None) s1).
  { unfold storage.Create, smartfile.NewFile, bind, OpenFile, syscall, ret.
    fold path. now rewrite Hopen1. }
  assert (Hc2 : storage.Create (storage.mkManager r1) (ID i') s1
                = Ok (storage.mkManager (storage.Add r1 (ID i') f2), None) s2).
  { unfold storage.Create, smartfile.NewFile, bind, OpenFile, syscall, ret.
    fold path'. subst s1. cbn [world]. now rewrite Hopen2. }
  assert (Hb1 : 0 <= storage.bound r1).
  { subst r1. unfold storage.Add.
    match goal with |- context [if ?c then _ else _] => destruct c end; exact Hb. }
  destruct (save_due g2 (mkProxy i' sk 0 true) true f2 s2 eq_refl HT (or_intror eq_refl))
    as (g' & sp' & s' & Hsave & Hsaved & (evs & Htr & Hevs) & _).
  - subst g2. simpl. now apply find_Add.
  - subst f2. simpl. unfold storage.fileCapacity. lia.
  - subst f2. simpl. unfold storage.fileCapacity, Go.int_of_uint. simpl. lia.
  - exists g', s', evs. split; [|split; [|assumption]].
    + unfold createSketch. rewrite (bind_Ok _ _ _ _ _ Hc1). rewrite Hnew.
      cbn [manager setManager]. rewrite (bind_Ok _ _ _ _ _ Hc2).
      fold g2. rewrite (bind_Ok _ _ _ _ _ Hsave). rewrite Hsaved. reflexivity.
    + rewrite Htr. subst s2 s1. cbn [trace info]. now rewrite <- !app_assoc.
Qed.

End ProxyMore.

(** ** The Bloom filter *)

Section BloomFacts.
Import bloom.

Lemma location_m (f f' : Filter) (h : list Z) (i : Z) :
  m f' = m f -> location f' h i = location f h i.
Proof. intros Hm. unfold location. now rewrite Hm. Qed.

Lemma locations_m (f f' : Filter) (h : list Z) (n : nat) (i : Z) :
  m f' = m f -> locations f' h n i = locations f h n i.
Proof.
  intros Hm. revert i. induction n as [|n IH]; intros i; simpl; [reflexivity|].
  now rewrite (location_m f f' h i Hm), IH.
Qed.

(** On the four base hashes every location is defined and below [m]. *)
Lemma location_defined (f : Filter) (d : list byte) (i : Z) :
  sized f -> exists l, location f (baseHashes d) i = Some l /\ 0 <= l < m f.
Proof.
  intros Hm. unfold sized in Hm. unfold location, baseHashes.
  set (ii := u64 i).
  assert (H1 : ii mod 2 = 0 \/ ii mod 2 = 1)
    by (pose proof (Z.mod_pos_bound ii 2 ltac:(lia)); lia).
  set (x := u64 (ii + ii mod 2) mod 4).
  assert (Hx : x = 0 \/ x = 1 \/ x = 2 \/ x = 3)
    by (pose proof (Z.mod_pos_bound (u64 (ii + ii mod 2)) 4 ltac:(lia)); subst x; lia).
  assert (Hu : u64 (m f) = m f) by (unfold u64; apply Z.mod_small; lia).
  rewrite Hu. replace (m f =? 0) with false by (symmetry; apply Z.eqb_neq; lia).
  destruct H1 as [-> | ->]; destruct Hx as [-> | [-> | [-> | ->]]]; simpl;
    eexists; (split; [reflexivity | apply Z.mod_pos_bound; lia]).
Qed.

Lemma locations_defined (f : Filter) (d : list byte) (n : nat) (i : Z) :
  sized f ->
  exists ls, locations f (baseHashes d) n i = Some ls /\ Forall (fun l => 0 <= l < m f) ls.
Proof.
  intros Hm. revert i. induction n as [|n IH]; intros i; simpl.
  - exists []. split; [reflexivity | constructor].
  - destruct (location_defined f d i Hm) as (l & -> & Hl).
    destruct (IH (i + 1)) as (ls & -> & Hls).
    exists (l :: ls). split; [reflexivity | now constructor].
Qed.

Lemma addLoop_locations (f : Filter) (h : list Z) (n : nat) (i : Z) :
  addLoop n i h f
  = option_map (fun ls => mkFilter (m f) (k f) (fold_left Z.setbit ls (b f)))
               (locations f h n i).
Proof.
  revert i f. induction n as [|n IH]; intros i f; simpl; [now destruct f|].
  destruct (location f h i) as [l|]; [|reflexivity].
  rewrite IH. rewrite (locations_m f (mkFilter (m f) (k f) (Z.setbit (b f) l))) by reflexivity.
  now destruct (locations f h n (i + 1)).
Qed.

Lemma testLoop_locations (f : Filter) (h : list Z) (n : nat) (i : Z) (ls : list Z) :
  locations f h n i = Some ls ->
  testLoop n i h f = Some (forallb (Z.testbit (b f)) ls).
Proof.
  revert i ls. induction n as [|n IH]; intros i ls; simpl.
  - now intros [= <-].
  - destruct (location f h i) as [l|]; [|discriminate].
    destruct (locations f h n (i + 1)) as [ls'|] eqn:Hls; [|discriminate].
    intros [= <-]. simpl. destruct (Z.testbit (b f) l); [now apply IH | reflexivity].
Qed.

Lemma forallb_testbit_setbit (a l : Z) (ls : list Z) :
  0 <= l -> Z.testbit a l = true ->
  forallb (Z.testbit (Z.setbit a l)) ls = forallb (Z.testbit a) ls.
Proof.
  intros Hl Hset. induction ls as [|x r IH]; simpl; [reflexivity|]. rewrite IH. f_equal.
  destruct (Z.eq_dec l x) as [<- | Hne]; [now rewrite Z.setbit_eq, Hset | now apply Z.setbit_neq].
Qed.

Lemma testAndAddLoop_locations
  (f : Filter) (h : list Z) (n : nat) (i : Z) (p : bool) (ls : list Z) :
  locations f h n i = Some ls -> Forall (fun l => 0 <= l) ls ->
  testAndAddLoop n i h p f
  = Some (p && forallb (Z.testbit (b f)) ls,
          mkFilter (m f) (k f) (fold_left Z.setbit ls (b f))).
Proof.
  revert i p f ls. induction n as [|n IH]; intros i p f ls; simpl.
  - intros [= <-] _. simpl. rewrite andb_true_r. now destruct f.
  - destruct (location f h i) as [l|]; [|discriminate].
    destruct (locations f h n (i + 1)) as [ls'|] eqn:Hls; [|discriminate].
    intros [= <-] Hpos. inversion Hpos as [|? ? Hl Hpos']; subst.
    rewrite (IH (i + 1) (if Z.testbit (b f) l then p else false)
                (mkFilter (m f) (k f) (Z.setbit (b f) l)) ls');
      [|now rewrite (locations_m f) | assumption].
    simpl. f_equal. f_equal.
    destruct (Z.testbit (b f) l) eqn:Hb.
    + now rewrite forallb_testbit_setbit.
    + simpl. now rewrite andb_false_r.
Qed.

Lemma fold_left_setbit (ls : list Z) (a x : Z) :
  Forall (fun l => 0 <= l) ls ->
  Z.testbit (fold_left Z.setbit ls a) x = true <-> In x ls \/ Z.testbit a x = true.
Proof.
  intros Hpos. revert a. induction Hpos as [|l ls Hl _ IH]; intros a; simpl; [tauto|].
  rewrite IH, Z.setbit_iff by assumption. tauto.
Qed.

Lemma Forall_nonneg (bound : Z) (ls : list Z) :
  Forall (fun l => 0 <= l < bound) ls -> Forall (fun l => 0 <= l) ls.
Proof. apply Forall_impl. intros; lia. Qed.

(** What one [Add] does, in terms of bits. *)
Lemma Add_bits (f : Filter) (d : list byte) :
  sized f ->
  exists f' ls,
    Add f d = Some f' /\ m f' = m f /\ k f' = k f /\
    locations f (baseHashes d) (Z.to_nat (k f)) 0 = Some ls /\
    Forall (fun l => 0 <= l < m f) ls /\
    forall x, Z.testbit (b f') x = true <-> In x ls \/ Z.testbit (b f) x = true.
Proof.
  intros Hm. destruct (locations_defined f d (Z.to_nat (k f)) 0 Hm) as (ls & Hls & Hrange).
  unfold Add. rewrite addLoop_locations, Hls. simpl.
  eexists. exists ls. do 4 (split; [reflexivity|]). split; [assumption|].
  intros x. simpl. apply fold_left_setbit. now apply (Forall_nonneg (m f)).
Qed.

Lemma Test_true_bits (f : Filter) (d : list byte) (ls : list Z) :
  locations f (baseHashes d) (Z.to_nat (k f)) 0 = Some ls ->
  (Test f d = Some true <-> forall x, In x ls -> Z.testbit (b f) x = true).
Proof.
  intros Hls. unfold Test. rewrite (testLoop_locations f _ _ _ ls Hls).
  rewrite <- forallb_forall. split; [now intros [= ->] | now intros ->].
Qed.

(** A key that tests positive keeps testing positive when bits are only
    added. *)
Lemma Test_true_mono (f f' : Filter) (d : list byte) :
  sized f -> m f' = m f -> k f' = k f ->
  (forall x, Z.testbit (b f) x = true -> Z.testbit (b f') x = true) ->
  Test f d = Some true -> Test f' d = Some true.
Proof.
  intros Hm Hm' Hk Hmono Ht.
  destruct (locations_defined f d (Z.to_nat (k f)) 0 Hm) as (ls & Hls & _).
  assert (Hls' : locations f' (baseHashes d) (Z.to_nat (k f')) 0 = Some ls)
    by now rewrite Hk, (locations_m f).
  apply (Test_true_bits f' d ls Hls'). intros x Hx. apply Hmono.
  now apply (Test_true_bits f d ls Hls).
Qed.

(** X25.  No false negatives: after the keys of any list have been added to
    a filter, each of them tests positive.  (No [Add] panics on a filter with
    at least one bit of capacity.) *)
Theorem no_false_negatives (f : Filter) (keys : list (list byte)) :
  sized f ->
  exists f', AddEach f keys = Some f' /\
             forall d, In d keys -> Test f' d = Some true.
Proof.
  intros Hm.
  cut (exists f', AddEach f keys = Some f' /\ m f' = m f /\ k f' = k f /\
                  (forall x, Z.testbit (b f) x = true -> Z.testbit (b f') x = true) /\
                  forall d, In d keys -> Test f' d = Some true).
  { intros (f' & H & _ & _ & _ & Ht). eauto. }
  revert f Hm. induction keys as [|d r IH]; intros f Hm; simpl.
  - exists f. repeat split; auto. contradiction.
  - destruct (Add_bits f d Hm) as (f1 & ls & Hadd & Hm1 & Hk1 & Hls & Hrange & Hbits).
    rewrite Hadd. assert (Hsz : sized f1) by (unfold sized in *; now rewrite Hm1).
    destruct (IH f1 Hsz) as (f' & Hall & Hm' & Hk' & Hmono & Ht).
    exists f'. split; [assumption|]. split; [congruence|]. split; [congruence|]. split.
    + intros x Hx. apply Hmono, Hbits. now right.
    + intros d' [<- | Hin]; [|now apply Ht].
      apply (Test_true_mono f1 f' d Hsz Hm' Hk' Hmono).
      assert (Hls1 : locations f1 (baseHashes d) (Z.to_nat (k f1)) 0 = Some ls)
        by now rewrite Hk1, (locations_m f).
      apply (Test_true_bits f1 d ls Hls1). intros x Hx. apply Hbits. now left.
Qed.

(** X26.  Adding a key never turns a positive answer into a negative one:
    what tested positive before an [Add] tests positive after it. *)
Theorem Test_stays_true (f f' : Filter) (d d' : list byte) :
  sized f -> Test f d = Some true -> Add f d' = Some f' -> Test f' d = Some true.
Proof.
  intros Hm Ht Hadd.
  destruct (Add_bits f d' Hm) as (f1 & ls & Hadd1 & Hm1 & Hk1 & _ & _ & Hbits).
  rewrite Hadd in Hadd1. injection Hadd1 as <-.
  apply (Test_true_mono f f' d Hm Hm1 Hk1); [|assumption].
  intros x Hx. apply Hbits. now right.
Qed.

(** X27.  [TestAndAdd] answers what [Test] answers on the filter as it was
    and leaves the filter as [Add] leaves it. *)
Theorem TestAndAdd_is_Test_then_Add (f : Filter) (d : list byte) :
  sized f ->
  exists t f',
    Test f d = Some t /\ Add f d = Some f' /\ TestAndAdd f d = Some (t, f').
Proof.
  intros Hm. destruct (locations_defined f d (Z.to_nat (k f)) 0 Hm) as (ls & Hls & Hrange).
  exists (forallb (Z.testbit (b f)) ls),
         (mkFilter (m f) (k f) (fold_left Z.setbit ls (b f))).
  split; [exact (testLoop_locations f _ _ _ ls Hls)|]. split.
  - unfold Add. now rewrite addLoop_locations, Hls.
  - unfold TestAndAdd.
    now rewrite (testAndAddLoop_locations f _ _ _ true ls Hls (Forall_nonneg (m f) ls Hrange)).
Qed.

(** X28.  A filter without any bit set ([New], or any filter after
    [ClearAll]) answers negative for every key when it has at least one hash
    function, and positive for every key when it has none. *)
Theorem cleared_filter_answers (f : Filter) (d : list byte) :
  sized f ->
  (0 < k f -> Test (ClearAll f) d = Some false /\ Test (New (m f) (k f)) d = Some false) /\
  (k f = 0 -> Test (ClearAll f) d = Some true).
Proof.
  intros Hm. split.
  - intros Hk. assert (Hn : exists n, Z.to_nat (k f) = S n).
    { exists (Nat.pred (Z.to_nat (k f))). lia. }
    destruct Hn as [n Hn].
    assert (H0 : forall g, m g = m f -> k g = k f -> b g = 0 -> Test g d = Some false).
    { intros g Hmg Hkg Hbg. unfold Test. rewrite Hkg, Hn. simpl.
      assert (Hg : sized g) by (unfold sized in *; now rewrite Hmg).
      destruct (location_defined g d 0 Hg) as (l & -> & _).
      now rewrite Hbg, Z.testbit_0_l. }
    split; apply H0; reflexivity.
  - intros Hk. unfold Test, ClearAll. simpl. now rewrite Hk.
Qed.

(** X18.  A filter of capacity zero with at least one hash function panics
    on the first location, in [Add], [Test] and [TestAndAdd] alike. *)
Theorem zero_capacity_panics (f : Filter) (d : list byte) :
  m f = 0 -> 0 < k f ->
  Add f d = None /\ Test f d = None /\ TestAndAdd f d = None.
Proof.
  intros Hm Hk. assert (Hn : exists n, Z.to_nat (k f) = S n).
  { exists (Nat.pred (Z.to_nat (k f))). lia. }
  destruct Hn as [n Hn].
  assert (Hloc : location f (baseHashes d) 0 = None).
  { unfold location. rewrite Hm. simpl. reflexivity. }
  unfold Add, Test, TestAndAdd. rewrite Hn. simpl. now rewrite Hloc.
Qed.

End BloomFacts.

(** ** Runs on the simulated environment *)

(** Settle a conjunction of equations between closed terms by evaluation,
    one conjunct after the other. *)
Ltac evaluate :=
  lazymatch goal with
  | |- _ /\ _ => split; [lazy; reflexivity | evaluate]
  | |- _ => lazy; reflexivity
  end.

Section Runs.
Import Sim.
Local Open Scope go_scope.

(** The simulated files are what the constructors return. *)
Example NewFile_run : smartfile.NewFile "/data/x" 1 fresh = Ok (Some xfile, None) xopen.
Proof. evaluate. Qed.

Example Create_run : storage.Create nomanager "x" fresh = Ok (xmanager, None) xopen.
Proof. evaluate. Qed.

(** The scenario of [TestFileManager]: capacity 1, three writes.  Every write
    is flushed at once and every insertion of a second offset evicts the
    other entry, which is written back once more. *)
Example TestFileManager_run :
  exists fq s,
    (fq1 <- smartfile.Write xfile (b "beast") 4 ;;
     fq2 <- smartfile.Write fq1 (b "storm") 14 ;;
     smartfile.Write fq2 (b "kiss") 4) xopen = Ok fq s /\
    smartfile.ll (smartfile.queue fq)
      = [smartfile.mkEntry 4 (smartfile.mkItem (b "kiss") false)] /\
    map isWriteAt (trace s) = [false; true; true; true; true; true] /\
    content "/data/x" (disk (world s))
      = Some (zeros 4 ++ b "kisst" ++ zeros 5 ++ b "storm").
Proof. do 2 eexists. evaluate. Qed.

(** C7 on the simulated file: ["beast"] written at offset 4 is read back. *)
Lemma read_after_write_witness :
  smartfile.size xfile <> 0 /\
  0 <= smartfile.MaxEntries (smartfile.queue xfile) /\
  length (zeros 5) = length (b "beast") /\
  exists fq1 s1 fq2,
    smartfile.Write xfile (b "beast") 4 xopen = Ok fq1 s1 /\
    smartfile.Read fq1 (zeros 5) 4 s1 = Ok (fq2, b "beast", None) s1.
Proof.
  split; [discriminate|]. split; [simpl; lia|]. split; [reflexivity|].
  apply (read_after_write xfile (b "beast") (zeros 5) 4 xopen);
    [discriminate | simpl; lia | reflexivity].
Defined.

(** C10 on the simulated file: four bytes are cached at offset 4 and five are
    asked for. *)
Lemma Read_hit_short_witness :
  smartfile.peek (smartfile.queue kissFile) 4 = Some (smartfile.mkItem (b "kiss") true) /\
  (length (b "kiss") < length (zeros 5))%nat /\
  smartfile.Read kissFile (zeros 5) 4 xopen
  = Ok (smartfile.setQueue kissFile (fst (smartfile.get (smartfile.queue kissFile) 4)),
        zeros 5, None) xopen.
Proof.
  split; [reflexivity|]. split; [simpl; lia|].
  apply (Read_hit_short kissFile (zeros 5) 4 (smartfile.mkItem (b "kiss") true) xopen);
    [reflexivity | simpl; lia].
Defined.

(** C2 (the code departs from it).  Over the five-byte file ["hello"], with
    nothing cached: a read of five bytes at offset 0 succeeds below and
    returns them, and the cache stays empty; a read of five bytes at offset 3
    fails below (two bytes, then the end of the file), yet [Read] reports no
    error and caches the half-filled buffer as a clean entry. *)
Theorem Read_miss_inverted :
  exists fq s s1 fq2 s2,
    smartfile.NewFile "/data/x" 2 hello = Ok (Some fq, None) s /\
    os_ReadAt (smartfile.file fq) (zeros 5) 0 (world s) = ((b "hello", None), world s) /\
    smartfile.Read fq (zeros 5) 0 s = Ok (fq, b "hello", None) s1 /\
    smartfile.ll (smartfile.queue fq) = [] /\
    os_ReadAt (smartfile.file fq) (zeros 5) 3 (world s)
      = ((b "lo" ++ zeros 3, Some "EOF"), world s) /\
    smartfile.Read fq (zeros 5) 3 s = Ok (fq2, b "lo" ++ zeros 3, None) s2 /\
    smartfile.ll (smartfile.queue fq2)
      = [smartfile.mkEntry 3 (smartfile.mkItem (b "lo" ++ zeros 3) false)].
Proof. do 5 eexists. evaluate. Qed.

(** C8 on the simulated file: the first flush writes the dirty entry, the
    second does nothing. *)
Lemma flush_twice_witness :
  exists fq1 s1,
    smartfile.Flush kissFile xopen = Ok (fq1, None) s1 /\
    smartfile.Flush fq1 s1 = Ok (fq1, None) s1 /\
    smartfile.keys (smartfile.queue fq1) = smartfile.keys (smartfile.queue kissFile) /\
    (forall k it, smartfile.peek (smartfile.queue fq1) k = Some it -> smartfile.dirty it = false).
Proof.
  do 2 eexists. split; [lazy; reflexivity|].
  apply (flush_twice kissFile _ xopen _). lazy; reflexivity.
Defined.

(** C8 as stated fails.  On a file whose handle is closed the first flush
    stops at the write error and leaves the entry dirty, so the second flush
    issues the positional write again. *)
Lemma flush_twice_counterexample :
  exists fq s fq1 e1 s1 fq2 e2 s2,
    stale = Ok fq s /\
    smartfile.Flush fq s = Ok (fq1, Some e1) s1 /\
    smartfile.Flush fq1 s1 = Ok (fq2, Some e2) s2 /\
    trace s2 = trace s1 ++ [EvWriteAt (smartfile.file fq1) (b "a") 0] /\
    smartfile.peek (smartfile.queue fq1) 0 = Some (smartfile.mkItem (b "a") true).
Proof. do 8 eexists. evaluate. Qed.

(** C4 on the simulated registry, the file holding two cached entries. *)
Lemma DeleteData_open_witness :
  exists m' err s' evs,
    storage.DeleteData xholding "x" xopen = Ok (m', err) s' /\
    trace s' = trace xopen ++ @EvClose env 0%nat :: evs ++ [EvRemove "/data/x"] /\
    Permutation evs [EvWriteAt 0%nat (b "kiss") 4; EvWriteAt 0%nat (b "beast") 0] /\
    storage.find "x" (storage.files (storage.cache m'))
    = Some (purged xcached).
Proof.
  apply (DeleteData_open xholding "x" xcached xopen).
  reflexivity.
Defined.

(** The same run in full.  The simulated run time ranges over a map last
    element first, so the clean entry at offset 0 is written back before the
    dirty one at offset 4; both writes fail on the closed handle, and the
    bytes never reach the medium. *)
Lemma DeleteData_run :
  exists m' s',
    storage.DeleteData xholding "x" xopen = Ok (m', None) s' /\
    trace s' = trace xopen
               ++ [@EvClose env 0%nat; EvWriteAt 0%nat (b "beast") 0;
                   EvWriteAt 0%nat (b "kiss") 4; EvRemove "/data/x"] /\
    content "/data/x" (disk (world s')) = None.
Proof. do 2 eexists. evaluate. Qed.

(** C4 as stated fails.  After [DeleteData] the backing file is gone from the
    medium and the identifier is still registered, bound to the file with the
    closed handle. *)
Lemma DeleteData_counterexample :
  exists m' s' fq,
    storage.DeleteData xmanager "x" xopen = Ok (m', None) s' /\
    content "/data/x" (disk (world s')) = None /\
    storage.find "x" (storage.files (storage.cache m')) = Some fq /\
    closed (world s') = [smartfile.file fq].
Proof. do 3 eexists. evaluate. Qed.

(** C5 (the code departs from it).  The file of ["x"] is not registered and
    the system refuses to open it: [SaveData] panics on the nil pointer after
    the failed open, and no error reaches the caller; [LoadData], on the same
    input, returns the error. *)
Theorem SaveData_nil_file :
  storage.SaveData nomanager "x" (b "k") 0 (refusing "/data/x")
  = Panic "invalid memory address or nil pointer dereference"
          (mkSt (world (refusing "/data/x")) [EvOpenFile "/data/x"]) /\
  storage.LoadData nomanager "x" 0 1 (refusing "/data/x")
  = Ok (nomanager, None, Some "open /data/x: permission denied")
       (mkSt (world (refusing "/data/x")) [EvOpenFile "/data/x"]).
Proof. evaluate. Qed.

(** C3 on the simulated system: threshold 3, a proxy with counter 0; the
    third mutation saves and leaves the counter at 4. *)
Lemma threshold_save_witness :
  exists sp1 g2 sp2 s2,
    sketches.mutateAll (globals 3 xmanager) (xproxy 0 false)
      [sketches.MAdd [b "k1"]; sketches.MRemove [b "k1"]] xopen
    = Ok (globals 3 xmanager, sp1) xopen /\
    sketches.mutate (globals 3 xmanager) sp1 (sketches.MAdd [b "k2"]) xopen
    = Ok (g2, sp2, answer sp1 (sketches.MAdd [b "k2"])) s2 /\
    saved g2 (touched sp1 (sketches.MAdd [b "k2"])) sp2 xopen s2 /\
    sketches.ops sp2 = 0 + 3 + 1.
Proof.
  apply (@threshold_save env dict (globals 3 xmanager) (xproxy 0 false)
           [sketches.MAdd [b "k1"]; sketches.MRemove [b "k1"]] (sketches.MAdd [b "k2"])
           xregistered xopen);
    try reflexivity; simpl; try lia; discriminate.
Defined.

(** C3 as stated fails.  With threshold 3, [createSketch] hands out a proxy
    whose counter is already 1, the forced first save having counted.  Of
    three mutations that follow, the second saves, and the third, the
    threshold-th, saves nothing: it leaves the registry, the log and the
    system as they were and the proxy dirty. *)
Lemma threshold_save_counterexample :
  exists g sp s g2 sp2 s2 sp3 r,
    sketches.createSketch (globals 3 nomanager) xinfo fresh = Ok (g, Some sp, None) s /\
    sketches.SaveThresholdOps g = 3 /\
    sketches.ops sp = 1 /\
    sketches.mutateAll g sp [sketches.MAdd [b "k1"]; sketches.MAdd [b "k2"]] s
    = Ok (g2, sp2) s2 /\
    sketches.mutate g2 sp2 (sketches.MAdd [b "k3"]) s2 = Ok (g2, sp3, r) s2 /\
    sketches.dirty sp3 = true /\
    sketches.ops sp3 = 5.
Proof. do 8 eexists. evaluate. Qed.

(** C9 (the code departs from it).  The proxy is one mutation short of the
    threshold, its file is not registered and the system refuses to open it.
    The sketch accepts the keys, the deferred save runs into the nil pointer
    of [SaveData], and [Add] panics in place of returning the answer of the
    sketch. *)
Theorem Add_panics_when_save_cannot_open :
  sketches.Add (globals 3 nomanager) (xproxy 2 false) [b "k"] (refusing "/data/x")
  = Panic "invalid memory address or nil pointer dereference"
          (mkSt (world (refusing "/data/x")) [EvOpenFile "/data/x"]) /\
  snd (sketches.AddMultiple (sketches.sketch (xproxy 2 false)) [b "k"]) = (true, None).
Proof. evaluate. Qed.

End Runs.

(** ** More runs on the simulated environment *)

(** The keys of a concrete list are distinct. *)
Ltac distinct :=
  repeat (constructor; [simpl; intuition discriminate|]); constructor.

Section MoreRuns.
Import Sim.
Local Open Scope go_scope.

(** X1 on the cache of two clean entries. *)
Lemma keys_stay_unique_witness :
  NoDup (map smartfile.key (smartfile.ll twoClean)) /\
  NoDup (map smartfile.key
           (smartfile.ll (fst (smartfile.Add twoClean 3 (smartfile.mkItem (b "three") true))))).
Proof.
  split; [distinct|].
  apply (proj1 (keys_stay_unique twoClean 3 (smartfile.mkItem (b "three") true)
                  ltac:(distinct))).
Defined.

(** X2 on the cache of four entries: the clean entry at offset 3 goes, over
    the dirty one at offset 2 and the clean one at the back. *)
Lemma removeOldest_policy_witness :
  Forall isDirty [smartfile.mkEntry 2 (smartfile.mkItem (b "two") true)] /\
  smartfile.removeOldest mixed
  = smartfile.removeElement mixed (smartfile.mkEntry 3 (smartfile.mkItem (b "three") false)).
Proof.
  assert (H : Forall isDirty [smartfile.mkEntry 2 (smartfile.mkItem (b "two") true)])
    by (repeat constructor).
  split; [exact H|].
  apply (proj1 (removeOldest_policy mixed
                  [smartfile.mkEntry 4 (smartfile.mkItem (b "four") true)]
                  [smartfile.mkEntry 2 (smartfile.mkItem (b "two") true)]
                  (smartfile.mkEntry 3 (smartfile.mkItem (b "three") false))
                  (smartfile.mkEntry 1 (smartfile.mkItem (b "one") false)) H));
    reflexivity.
Defined.

(** X3 on the full cache of two dirty entries. *)
Lemma dirty_eviction_means_all_dirty_witness :
  Forall isDirty
    (smartfile.mkEntry 3 (smartfile.mkItem (b "three") true) :: smartfile.ll twoDirty) /\
  exists front,
    smartfile.mkEntry 3 (smartfile.mkItem (b "three") true) :: smartfile.ll twoDirty
    = front ++ [smartfile.mkEntry 1 (smartfile.mkItem (b "one") true)].
Proof.
  apply (dirty_eviction_means_all_dirty twoDirty
           (smartfile.mkCache 2
              [smartfile.mkEntry 3 (smartfile.mkItem (b "three") true);
               smartfile.mkEntry 2 (smartfile.mkItem (b "two") true)])
           3 (smartfile.mkItem (b "three") true)
           (smartfile.mkEntry 1 (smartfile.mkItem (b "one") true)));
    reflexivity.
Defined.

(** X4 on the cache of two clean entries. *)
Lemma Add_dirty_lookup_witness :
  0 <= smartfile.MaxEntries twoClean /\
  smartfile.peek (fst (smartfile.Add twoClean 3 (smartfile.mkItem (b "three") true))) 3
  = Some (smartfile.mkItem (b "three") true).
Proof.
  split; [simpl; lia|].
  apply (proj1 (Add_dirty_lookup twoClean 3 (b "three") ltac:(simpl; lia))).
Defined.

(** X5 on the full cache of two dirty entries. *)
Lemma Add_clean_into_dirty_cache_witness :
  smartfile.Add twoDirty 3 (smartfile.mkItem (b "three") false)
  = (twoDirty, Some (smartfile.mkEntry 3 (smartfile.mkItem (b "three") false))).
Proof.
  apply (Add_clean_into_dirty_cache twoDirty 3 (b "three"));
    [discriminate | unfold smartfile.len; simpl; lia | repeat constructor | reflexivity].
Defined.

(** X6 on the cache of four entries: offset 2 becomes the newest. *)
Lemma get_promotes_witness :
  smartfile.keys mixed = [1; 2; 3; 4] /\
  smartfile.keys (fst (smartfile.get mixed 2)) = List.remove Z.eq_dec 2 [1; 2; 3; 4] ++ [2].
Proof.
  split; [reflexivity|].
  apply (proj1 (proj2 (get_promotes mixed 2
                         (smartfile.mkEntry 2 (smartfile.mkItem (b "two") true))
                         ltac:(distinct) eq_refl))).
Defined.

(** X7 on the cache of four entries. *)
Lemma remove_gone_witness :
  smartfile.remove mixed 7 = (mixed, None) /\
  smartfile.peek (fst (smartfile.remove mixed 2)) 2 = None.
Proof.
  split.
  - apply (proj2 (remove_gone mixed 7 ltac:(distinct))). reflexivity.
  - apply (proj1 (remove_gone mixed 2 ltac:(distinct))
             (smartfile.mkEntry 2 (smartfile.mkItem (b "two") true)) eq_refl).
Defined.

(** X8 on the simulated file: two bytes asked of the four cached. *)
Lemma Read_serves_prefix_witness :
  smartfile.Read kissFile (zeros 2) 4 xopen
  = Ok (smartfile.setQueue kissFile (fst (smartfile.get (smartfile.queue kissFile) 4)),
        firstn 2 (b "kiss"), None) xopen.
Proof.
  apply (Read_serves_prefix kissFile (zeros 2) 4 (smartfile.mkItem (b "kiss") true) xopen);
    [reflexivity | simpl; lia].
Defined.

(** X9 on a file of four entries, from the oldest: offset 4 dirty, offset 2
    clean, offset -1 dirty, offset 8 dirty.  The flush writes offset 4, passes
    over offset 2, is refused the write at offset -1, returns that error and
    never reaches offset 8. *)
Lemma Flush_writes_dirty_oldest_first_witness :
  smartfile.Flush (stuck true) xopen = Ok (stuck false, Some "negative offset") stuckEnd /\
  exists done rest,
    filter (fun e => smartfile.dirty (smartfile.value e))
           (rev (smartfile.ll (smartfile.queue (stuck true))))
    = done ++ rest /\
    trace stuckEnd = trace xopen ++ map (writeBack 0%nat) done /\
    world stuckEnd = snd (replies 0%nat done (world xopen)) /\
    ended (Some "negative offset") (fst (replies 0%nat done (world xopen))) /\
    (Some "negative offset" = None -> rest = []).
Proof.
  assert (Hrun : smartfile.Flush (stuck true) xopen
                 = Ok (stuck false, Some "negative offset") stuckEnd)
    by (lazy; reflexivity).
  split; [exact Hrun|].
  apply (Flush_writes_dirty_oldest_first (stuck true) (stuck false)
           (Some "negative offset") xopen stuckEnd); [distinct | exact Hrun].
Defined.

(** X11 on the simulated file of capacity 2: the first write is buffered. *)
Lemma Write_buffered_witness :
  exists fq',
    smartfile.Write xfile2 (b "beast") 4 xopen = Ok fq' xopen /\
    smartfile.peek (smartfile.queue fq') 4 = Some (smartfile.mkItem (b "beast") true) /\
    smartfile.ops fq' = Go.uint_wrap (smartfile.ops xfile2 + 1) /\
    forall k', k' <> 4 ->
      smartfile.peek (smartfile.queue fq') k' = smartfile.peek (smartfile.queue xfile2) k'.
Proof.
  apply (Write_buffered xfile2 (b "beast") 4 xopen);
    [discriminate | discriminate | right; right; reflexivity].
Defined.

(** X12 on the simulated file of capacity 1: writing at offset 14 evicts the
    entry at offset 4, whose bytes are written back. *)
Lemma Write_keeps_or_writes_back_witness :
  exists fq' s' evs,
    smartfile.Write kissFile (b "storm") 14 xopen = Ok fq' s' /\
    trace s' = trace xopen ++ evs /\
    (cachedBytes (smartfile.ll (smartfile.queue fq')) 4 = Some (b "kiss") \/
     In (EvWriteAt (smartfile.file kissFile) (b "kiss") 4) evs).
Proof.
  apply (Write_keeps_or_writes_back kissFile (b "storm") (b "kiss") 14 4 xopen);
    [discriminate | distinct | discriminate | reflexivity].
Defined.

(** X14 on the simulated registry. *)
Lemma SaveData_LoadData_roundtrip_witness :
  exists m1 s1 m2,
    storage.SaveData xmanager "x" (b "kiss") 0 xopen = Ok (m1, None) s1 /\
    storage.LoadData m1 "x" 0 (Z.of_nat (length (b "kiss"))) s1
    = Ok (m2, Some (b "kiss"), None) s1.
Proof.
  apply (SaveData_LoadData_roundtrip xmanager "x" xregistered (b "kiss") 0 xopen);
    [reflexivity | discriminate | simpl; lia | discriminate].
Defined.

(** X15 on the simulated registry: four bytes are cached at offset 0, the
    file on the medium is empty, and a load of length zero returns nothing. *)
Lemma LoadData_zero_length_witness :
  exists m',
    storage.LoadData xpending "x" 0 0 xopen
    = Ok (m', Some (firstn (Z.to_nat 0) (b "kiss")), None)
         (mkSt (world xopen) (trace xopen ++ [EvStat (smartfile.file xunflushed)])).
Proof.
  apply (LoadData_zero_length xpending "x" xunflushed (b "kiss") 0 0 xopen (world xopen));
    [reflexivity | reflexivity | reflexivity | simpl; lia].
Defined.

(** X16 on a system that refuses to open the file. *)
Lemma FlushData_open_failure_witness :
  storage.FlushData nomanager "x" (refusing "/data/x")
  = Panic "invalid memory address or nil pointer dereference"
          (mkSt (world (refusing "/data/x"))
                (trace (refusing "/data/x") ++ [EvOpenFile (filepath_Join dataPath "x")])).
Proof.
  apply (FlushData_open_failure nomanager "x" "open /data/x: permission denied"
           (refusing "/data/x") (world (refusing "/data/x")));
    reflexivity.
Defined.

(** X17 on a registered file whose handle is closed: the flush fails, and
    [FlushData] reports nothing. *)
Lemma FlushData_reports_no_error_witness :
  exists m' fq' err s',
    smartfile.Flush xunflushed xclosed = Ok (fq', err) s' /\
    storage.FlushData xpending "x" xclosed = Ok (m', None) s' /\
    storage.find "x" (storage.files (storage.cache m')) = Some fq' /\
    sameContents xunflushed fq'.
Proof.
  apply (FlushData_reports_no_error xpending "x" xunflushed xclosed). reflexivity.
Defined.

(** [DeleteData] on the empty registry: there is no such file, and the error of the
    removal is returned. *)
Lemma DeleteData_not_open_witness :
  storage.DeleteData nomanager "x" fresh
  = Ok (nomanager, fst (os_Remove (filepath_Join dataPath "x") (world fresh)))
       (mkSt (snd (os_Remove (filepath_Join dataPath "x") (world fresh)))
             (trace fresh ++ [EvRemove (filepath_Join dataPath "x")])).
Proof.
  apply (DeleteData_not_open nomanager "x" fresh). reflexivity.
Defined.

(** X19 on the simulated system with threshold 0. *)
Lemma zero_threshold_panics_witness :
  sketches.mutate (globals 0 xmanager) (xproxy 0 false) (sketches.MAdd [b "k"]) xopen
  = Panic "integer divide by zero" xopen.
Proof.
  apply (@zero_threshold_panics env dict (globals 0 xmanager) (xproxy 0 false)
           (sketches.MAdd [b "k"]) xopen).
  reflexivity.
Defined.

(** X20 on the simulated system: threshold 3, counter 2, so the mutation
    saves; the system refuses to store the metadata record. *)
Lemma mutation_answers_and_logs_witness :
  exists g' sp' s',
    sketches.mutate (globals 3 xmanager) (xproxy 2 false) (sketches.MAdd [b "k"]) xnoinfo
    = Ok (g', sp', answer (xproxy 2 false) (sketches.MAdd [b "k"])) s' /\
    (sketches.dirty sp' = true -> g' = globals 3 xmanager /\ s' = xnoinfo) /\
    (sketches.dirty sp' = false ->
     exists m1 s1,
       storage.SaveData
         (sketches.manager
            (sketches.logErr (globals 3 xmanager)
               (snd (sketches.Marshal (sketches.sketch sp')))))
         (sketches.ID (sketches.info sp')) (fst (sketches.Marshal (sketches.sketch sp'))) 0
         xnoinfo
       = Ok (m1, None) s1 /\
       s' = mkSt (snd (manager_SaveInfo (sketches.ID (sketches.info sp'))
                         (sketches.json_Marshal (sketches.info sp')) (world s1)))
                 (trace s1 ++ [EvSaveInfo (sketches.ID (sketches.info sp'))
                                 (sketches.json_Marshal (sketches.info sp'))]) /\
       sketches.logged g'
       = sketches.logged (globals 3 xmanager)
         ++ errors (snd (sketches.Marshal (sketches.sketch sp')))
         ++ errors (fst (manager_SaveInfo (sketches.ID (sketches.info sp'))
                           (sketches.json_Marshal (sketches.info sp')) (world s1)))).
Proof.
  apply (@mutation_answers_and_logs env dict (globals 3 xmanager) (xproxy 2 false)
           (sketches.MAdd [b "k"]) xregistered xnoinfo);
    [discriminate | reflexivity | discriminate | simpl; lia].
Defined.

(** The same run in full: the refusal is the one line logged, and the
    mutation still returns the answer of the sketch. *)
Lemma mutation_run :
  exists g' sp' s',
    sketches.mutate (globals 3 xmanager) (xproxy 2 false) (sketches.MAdd [b "k"]) xnoinfo
    = Ok (g', sp', (true, None)) s' /\
    sketches.dirty sp' = false /\
    sketches.logged g' = ["info x: permission denied"] /\
    trace s' = trace xnoinfo ++ [EvSaveInfo "x" (b "x")].
Proof. do 3 eexists. evaluate. Qed.

(** X21 on the simulated system: threshold 3, counter 1; the second mutation
    saves and leaves the counter at 4. *)
Lemma next_save_after_a_save_witness :
  exists sp1 g2 sp2 s2,
    sketches.mutateAll (globals 3 xmanager) (xproxy 1 false) [sketches.MAdd [b "k1"]] xopen
    = Ok (globals 3 xmanager, sp1) xopen /\
    sketches.mutate (globals 3 xmanager) sp1 (sketches.MAdd [b "k2"]) xopen
    = Ok (g2, sp2, answer sp1 (sketches.MAdd [b "k2"])) s2 /\
    saved g2 (touched sp1 (sketches.MAdd [b "k2"])) sp2 xopen s2 /\
    sketches.ops sp2 = 1 + 3 /\
    sketches.ops sp2 mod 3 = 1.
Proof.
  apply (@next_save_after_a_save env dict (globals 3 xmanager) (xproxy 1 false)
           [sketches.MAdd [b "k1"]] (sketches.MAdd [b "k2"]) xregistered xopen);
    try reflexivity; simpl; try lia; discriminate.
Defined.

(** X22 on the simulated system, with a type tag the constructors do not
    know. *)
Lemma createSketch_invalid_type_witness :
  exists g' s',
    @sketches.createSketch env typed (globals 3 nomanager) (sketches.mkInfo "x" "nope" []) fresh
    = Ok (g', None, Some "Invalid sketch type: nope") s' /\
    trace s' = [EvOpenFile "/data/x"] /\
    storage.find "x" (storage.files (storage.cache (sketches.manager g'))) <> None.
Proof.
  do 2 eexists. split; [|split].
  - apply (@createSketch_invalid_type env typed (globals 3 nomanager)
             (sketches.mkInfo "x" "nope" []) 0%nat fresh
             (mkWorld [("/data/x", [])] ["/data/x"] [] [] []));
      reflexivity.
  - reflexivity.
  - discriminate.
Defined.

(** X23 on the simulated system, with the count-min-log constructor: the
    [Info] comes without a capacity, the proxy and the stored record have the
    default one. *)
Lemma createSketch_success_witness :
  exists g' s' evs,
    @sketches.createSketch env counting (globals 3 nomanager) cinfo fresh
    = Ok (g',
          Some (@sketches.mkProxy counting
                  (sketches.mkInfo "x" "cml" [("capacity", 1000000)]) [] 1 false),
          None) s' /\
    trace s' = trace fresh ++ [EvOpenFile "/data/x"; EvOpenFile "/data/x"]
               ++ evs ++ [EvSaveInfo "x" (b "x,capacity")] /\
    forallb isWriteAt evs = true.
Proof.
  apply (@createSketch_success env counting (globals 3 nomanager) cinfo
           (sketches.mkInfo "x" "cml" [("capacity", 1000000)]) [] 0%nat 1%nat fresh
           (mkWorld [("/data/x", [])] ["/data/x"] [] [] [])
           (mkWorld [("/data/x", [])] ["/data/x"; "/data/x"] [] [] []));
    [discriminate | simpl; lia | reflexivity | reflexivity | reflexivity].
Defined.

(** X25 on a filter of 64 bits and three hash functions. *)
Lemma no_false_negatives_witness :
  exists f', bloom.AddEach sieve [b "Love"; b "hello"] = Some f' /\
             forall d, In d [b "Love"; b "hello"] -> bloom.Test f' d = Some true.
Proof.
  apply (no_false_negatives sieve [b "Love"; b "hello"]).
  unfold sized. split; lazy; reflexivity.
Defined.

(** X26: "Love" was added, "hello" is added after it. *)
Lemma Test_stays_true_witness :
  bloom.Test (adding (adding sieve (b "Love")) (b "hello")) (b "Love") = Some true.
Proof.
  apply (Test_stays_true (adding sieve (b "Love")) (adding (adding sieve (b "Love")) (b "hello"))
           (b "Love") (b "hello")).
  - unfold sized. split; lazy; reflexivity.
  - lazy; reflexivity.
  - lazy; reflexivity.
Defined.

(** X27 on a filter that holds "Love" already. *)
Lemma TestAndAdd_is_Test_then_Add_witness :
  exists t f',
    bloom.Test (adding sieve (b "Love")) (b "hello") = Some t /\
    bloom.Add (adding sieve (b "Love")) (b "hello") = Some f' /\
    bloom.TestAndAdd (adding sieve (b "Love")) (b "hello") = Some (t, f').
Proof.
  apply (TestAndAdd_is_Test_then_Add (adding sieve (b "Love")) (b "hello")).
  unfold sized. split; lazy; reflexivity.
Defined.

(** X28 on a filter that holds "Love". *)
Lemma cleared_filter_answers_witness :
  (0 < bloom.k (adding sieve (b "Love")) ->
   bloom.Test (bloom.ClearAll (adding sieve (b "Love"))) (b "Love") = Some false /\
   bloom.Test (bloom.New (bloom.m (adding sieve (b "Love"))) (bloom.k (adding sieve (b "Love"))))
              (b "Love") = Some false) /\
  (bloom.k (adding sieve (b "Love")) = 0 ->
   bloom.Test (bloom.ClearAll (adding sieve (b "Love"))) (b "Love") = Some true).
Proof.
  apply (cleared_filter_answers (adding sieve (b "Love")) (b "Love")).
  unfold sized. split; lazy; reflexivity.
Defined.

(** X18 on [New(0, 3)]. *)
Lemma zero_capacity_panics_witness :
  bloom.Add (bloom.New 0 3) (b "Love") = None /\
  bloom.Test (bloom.New 0 3) (b "Love") = None /\
  bloom.TestAndAdd (bloom.New 0 3) (b "Love") = None.
Proof.
  apply (zero_capacity_panics (bloom.New 0 3) (b "Love")); lazy; reflexivity.
Defined.

End MoreRuns.
